(** * The XmlHttpRequest backend of BrowserFS (src/backend/XmlHttpRequest.ts)

    A shallow embedding of the read-only, XHR-backed file system: the file
    index, the shared [Stats] objects it owns, the transport, and the
    blocking and callback-taking operations of the class, followed by the
    properties of these operations.

    JavaScript objects that are shared and mutated in place ([Stats]) live in
    a store addressed by locations; an operation is a state transformer that
    may throw; a callback-taking operation receives its continuation as an
    argument.  Every invocation of the caller's callback, every [close] of a
    file handle and every request sent to the transport is recorded in a
    trace, so that "how many times" and "was the network used" are
    properties of a run.

    The state is the one the constructor leaves: an index built from the
    listing and a prefix that ends in a separator; the constructor itself is
    not modelled.  A callback-taking request to the transport hands the
    answer to its continuation; the calls made while the request is in
    flight are a parameter of the operations that wait for the transport. *)

From Stdlib Require Import ZArith Lia Ascii String.
From stdpp Require Import base option list strings gmap functions.

Open Scope Z_scope.

(** ** Errors (core/api_error) *)

(** The error codes the backend names, and [EIO] for a failing transport. *)
Inductive ErrorCode :=
  | EPERM | ENOENT | EIO | EEXIST | ENOTDIR | EISDIR | EINVAL.

(** What can be thrown, or handed over in the error slot of a callback:
    an [ApiError], the [TypeError] JavaScript raises itself when a property
    of [undefined] is read, or a plain [Error] with its message. *)
Inductive Thrown :=
  | ApiError (errno : ErrorCode) (message : string)
  | TypeError
  | Error (message : string).

(** [ApiError.FileError(code, p)]: only the code and the path are kept, the
    wording of the message is not modelled. *)
Definition ApiError_FileError (code : ErrorCode) (p : string) : Thrown :=
  ApiError code p.
Definition ApiError_ENOENT := ApiError_FileError ENOENT.
Definition ApiError_EEXIST := ApiError_FileError EEXIST.
Definition ApiError_EISDIR := ApiError_FileError EISDIR.
Definition ApiError_ENOTDIR := ApiError_FileError ENOTDIR.

(** ** Open flags (core/file_flag) *)

(** Modelled from the spec: the enumeration [ActionType] of core/file_flag.
    The backend names three members and has a [default] branch for every
    other value, kept here as [OtherAction]. *)
Inductive ActionType :=
  | NOP | THROW_EXCEPTION | TRUNCATE_FILE | OtherAction (code : nat).

(** Modelled from the spec: a [FileFlag] is read through its write intent and
    its exists-action policy only. *)
Record FileFlag := mkFileFlag {
  isWriteable : bool;
  pathExistsAction : ActionType }.

(** ** Stats objects, inodes and file handles *)

Definition Buffer := list Byte.byte.
Definition loc := nat.

(** The two fields of [Stats] the backend reads and writes.  [size] is
    negative while unknown; [file_data] is [null] until materialised. *)
Record Stats := mkStats {
  size : Z;
  file_data : option Buffer }.

Definition buffer_length (b : Buffer) : Z := Z.of_nat (length b).

(** Modelled from the spec: the nodes of generic/file_index.  A file inode
    refers to its [Stats] object ([getData]), a directory inode has its
    listing ([getListing]) and its [Stats] ([getStats]).  [OtherInode]
    stands for an [Inode] that answers neither [isFile] nor [isDir], the
    case the last branch of [stat] is written for. *)
Inductive Inode :=
  | FileInode (data : loc)
  | DirInode (listing : list string) (stats : loc)
  | OtherInode.

(** Modelled from the spec: the type guards [isFileInode] and [isDirInode]
    of generic/file_index, with the narrowing they give: the [Stats] of a
    file inode, the listing and the [Stats] of a directory inode, and
    nothing for any other value, [null] included. *)
Definition as_FileInode (inode : option Inode) : option loc :=
  match inode with
  | Some (FileInode data) => Some data
  | _ => None
  end.

Definition as_DirInode (inode : option Inode) : option (list string * loc) :=
  match inode with
  | Some (DirInode listing stats) => Some (listing, stats)
  | _ => None
  end.

Definition is_null {A} (x : option A) : bool :=
  match x with None => true | Some _ => false end.

(** Modelled from the spec: [preload_file.NoSyncFile], a handle made of the
    path, the flags, a [Stats] object of its own and the buffer. *)
Record File := mkFile {
  file_path : string;
  file_flag : FileFlag;
  file_stat : loc;
  file_buffer : Buffer }.

Definition getBuffer (fd : File) : Buffer := file_buffer fd.

(** [copyingSlice]: a copy of the whole buffer.  Buffers are values here, so
    the copy has the same bytes. *)
Definition copyingSlice (b : Buffer) : Buffer := b.

(** ** Runs *)

Inductive Value :=
  | VStats (stats : loc)
  | VFile (fd : File)
  | VListing (names : list string)
  | VBuffer (b : Buffer)
  | VString (s : string).

Inductive Event :=
  | EvHead (url : string)       (* size-only request sent to the transport *)
  | EvGet (url : string)        (* whole-file request sent to the transport *)
  | EvClose (fd : File)         (* close or closeSync of a handle *)
  | EvCallback (err : option Thrown) (arg : option Value).
                                (* the caller's callback is invoked *)

Record State := mkState {
  _index : gmap string Inode;
  prefixUrl : string;
  heap : loc → Stats;
  next : loc;
  trace : list Event }.

Definition set_heap (h : loc → Stats) (st : State) : State :=
  {| _index := _index st; prefixUrl := prefixUrl st;
     heap := h; next := next st; trace := trace st |}.
Definition set_next (n : loc) (st : State) : State :=
  {| _index := _index st; prefixUrl := prefixUrl st;
     heap := heap st; next := n; trace := trace st |}.
Definition set_trace (t : list Event) (st : State) : State :=
  {| _index := _index st; prefixUrl := prefixUrl st;
     heap := heap st; next := next st; trace := t |}.

Inductive Res (A : Type) :=
  | Ok (a : A)
  | Throw (e : Thrown).
Arguments Ok {A} a.
Arguments Throw {A} e.

(** A computation: from a state to a state and a value or a thrown error. *)
Definition M (A : Type) : Type := State → State * Res A.

Definition ret {A} (a : A) : M A := λ st, (st, Ok a).
Definition throw {A} (e : Thrown) : M A := λ st, (st, Throw e).
Definition bind {A B} (m : M A) (k : A → M B) : M B :=
  λ st, match m st with
        | (st', Ok a) => k a st'
        | (st', Throw e) => (st', Throw e)
        end.

(** [try { body } catch (e) { handler(e) }] *)
Definition try_catch {A} (body : M A) (handler : Thrown → M A) : M A :=
  λ st, match body st with
        | (st', Ok a) => (st', Ok a)
        | (st', Throw e) => handler e st'
        end.

(** [try { body } finally { fin }]: [fin] runs in every case, and what it
    throws replaces the outcome of [body]. *)
Definition try_finally {A} (body : M A) (fin : M unit) : M A :=
  λ st, match body st with
        | (st', r) =>
            match fin st' with
            | (st'', Ok _) => (st'', r)
            | (st'', Throw e) => (st'', Throw e)
            end
        end.

Definition emit (ev : Event) : M unit :=
  λ st, (set_trace (trace st ++ [ev]) st, Ok tt).

Notation "x <~ c1 ; c2" := (bind c1 (λ x, c2))
  (at level 100, c1 at next level, right associativity, only parsing).
Notation "c1 ;;; c2" := (bind c1 (λ _, c2))
  (at level 100, right associativity, only parsing).

(** [cb(e)] and [cb(null, x)] *)
Definition Callback (A : Type) : Type := option Thrown → option A → M unit.

(** The callback supplied by a caller: each invocation is recorded, and
    [behaviour] tells what the callback throws on given arguments, if
    anything. *)
Definition Behaviour : Type := option Thrown → option Value → option Thrown.

Definition caller_cb {A} (inj : A → Value) (behaviour : Behaviour) : Callback A :=
  λ err arg,
    emit (EvCallback err (inj <$> arg));;;
    match behaviour err (inj <$> arg) with
    | Some e => throw e
    | None => ret tt
    end.

Definition returns_normally (behaviour : Behaviour) : Prop :=
  ∀ err arg, behaviour err arg = None.

(** ** The store of [Stats] objects *)

Definition getSize (stats : loc) : M Z :=
  λ st, (st, Ok (size (heap st stats))).
Definition getFileData (stats : loc) : M (option Buffer) :=
  λ st, (st, Ok (file_data (heap st stats))).

(** [stats.size = n] *)
Definition setSize (stats : loc) (n : Z) : M unit :=
  λ st, (set_heap (<[stats := mkStats n (file_data (heap st stats))]> (heap st)) st,
         Ok tt).
(** [stats.file_data = d] *)
Definition setFileData (stats : loc) (d : option Buffer) : M unit :=
  λ st, (set_heap (<[stats := mkStats (size (heap st stats)) d]> (heap st)) st,
         Ok tt).

(** Modelled from the spec: [Stats.clone] of core/node_fs_stats, a new
    [Stats] object with the size of the original.  The buffer is not part of
    the copy: a handle is "a cloned Stat plus the byte buffer". *)
Definition clone (stats : loc) : M loc :=
  λ st, let fresh := next st in
        (set_next (S fresh)
           (set_heap (<[fresh := mkStats (size (heap st stats)) None]> (heap st)) st),
         Ok fresh).

(** ** The file index (generic/file_index) *)

(** Modelled from the spec: [FileIndex.getInode], the lookup by path, which
    answers [null] for a path that is not in the index. *)
Definition getInode (path : string) : M (option Inode) :=
  λ st, (st, Ok (_index st !! path)).

Definition file_inodes (idx : gmap string Inode) : list loc :=
  omap (λ entry, as_FileInode (Some entry.2)) (map_to_list idx).

Fixpoint forEach {A} (items : list A) (f : A → M unit) : M unit :=
  match items with
  | [] => ret tt
  | x :: rest => f x;;; forEach rest f
  end.

(** Modelled from the spec: [FileIndex.fileIterator], which hands the
    [Stats] of every file node of the index to its argument. *)
Definition fileIterator (cb : loc → M unit) : M unit :=
  λ st, forEach (file_inodes (_index st)) cb st.

(** ** The handle (generic/preload_file) *)

(** Modelled from the spec: closing a [NoSyncFile] is a no-op, it holds no
    descriptor; [close] calls back at once and without an error. *)
Definition close (fd : File) (cb : option Thrown → M unit) : M unit :=
  emit (EvClose fd);;; cb None.
Definition closeSync (fd : File) : M unit :=
  emit (EvClose fd).

(** ** The transport (generic/xhr) *)

(** Modelled from the spec: the Transport collaborator, [fetchSize] and
    [fetchBytes], each answering a value or an error for a locator; the
    blocking and the callback-taking form read the same answers. *)
Record Xhr := mkXhr {
  fetchSize : string → Thrown + Z;
  fetchBytes : string → Thrown + Buffer }.

Section Backend.

Variable xhr : Xhr.

(** [Buffer.toString(encoding)], which throws on an encoding it does not
    support. *)
Variable toString : Buffer → string → Thrown + string.

Definition Buffer_toString (buff : Buffer) (encoding : string) : M string :=
  match toString buff encoding with
  | inl e => throw e
  | inr s => ret s
  end.

(** Modelled from the spec: [xhr.getFileSizeSync] and [xhr.syncDownloadFile]
    (generic/xhr), which return the answer or throw the error. *)
Definition getFileSizeSync (url : string) : M Z :=
  emit (EvHead url);;;
  match fetchSize xhr url with
  | inl e => throw e
  | inr n => ret n
  end.
Definition syncDownloadFile (url : string) : M Buffer :=
  emit (EvGet url);;;
  match fetchBytes xhr url with
  | inl e => throw e
  | inr b => ret b
  end.

(** ** The class XmlHttpRequest *)

Definition tryToString (buff : Buffer) (encoding : string) (cb : Callback string)
  : M unit :=
  try_catch
    (s <~ Buffer_toString buff encoding; cb None (Some s))
    (λ e, cb (Some e) None).

Definition empty : M unit :=
  fileIterator (λ file, setFileData file None).

Definition getXhrPath (this : State) (filePath : string) : string :=
  let filePath :=
    match filePath with
    | String "/"%char rest => rest
    | _ => filePath
    end in
  prefixUrl this +:+ filePath.

Definition _requestFileSizeSync (path : string) : M Z :=
  λ this, getFileSizeSync (getXhrPath this path) this.
Definition _requestFileSync (p : string) : M Buffer :=
  λ this, syncDownloadFile (getXhrPath this p) this.

Definition isReadOnly : bool := true.
Definition supportsLinks : bool := false.
Definition supportsProps : bool := false.
Definition supportsSynch : bool := true.

(** Modelled from the spec: the constructor of [preload_file.NoSyncFile]
    (generic/preload_file), called as
    [new preload_file.NoSyncFile(this, path, flags, stats.clone(), buffer)].
    It keeps what it is given and, for readable flags, refuses with a plain
    [Error] a [Stats] object whose size is not the length of the buffer.
    Flags without write intent, the only ones that reach it, are readable.
    The message is cut short to its first words. *)
Definition NoSyncFile (path : string) (flags : FileFlag) (stats : loc)
    (buffer : Buffer) : M File :=
  snapshot <~ clone stats;
  recorded <~ getSize snapshot;
  if recorded =? buffer_length buffer
  then ret (mkFile path flags snapshot buffer)
  else throw (Error "Invalid buffer").

Definition preloadFile (path : string) (buffer : Buffer) : M unit :=
  inode <~ getInode path;
  match as_FileInode inode with
  | Some stats =>
      if is_null inode then throw (ApiError_ENOENT path)
      else
        setSize stats (buffer_length buffer);;;
        setFileData stats (Some buffer)
  | None => throw (ApiError_EISDIR path)
  end.

Definition statSync (path : string) (isLstat : bool) : M loc :=
  inode <~ getInode path;
  if is_null inode then throw (ApiError_ENOENT path)
  else
    match as_FileInode inode with
    | Some stats =>
        sz <~ getSize stats;
        (if sz <? 0 then
           size <~ _requestFileSizeSync path;
           setSize stats size
         else ret tt);;;
        ret stats
    | None =>
        match as_DirInode inode with
        | Some (_, stats) => ret stats
        | None => throw (ApiError_FileError EINVAL path)
        end
    end.

Definition openSync (path : string) (flags : FileFlag) (mode : Z) : M File :=
  if isWriteable flags then throw (ApiError EPERM path)
  else
    inode <~ getInode path;
    if is_null inode then throw (ApiError_ENOENT path)
    else
      match as_FileInode inode with
      | Some stats =>
          match pathExistsAction flags with
          | THROW_EXCEPTION | TRUNCATE_FILE => throw (ApiError_EEXIST path)
          | NOP =>
              data <~ getFileData stats;
              match data with
              | Some contents => NoSyncFile path flags stats contents
              | None =>
                  buffer <~ _requestFileSync path;
                  setSize stats (buffer_length buffer);;;
                  setFileData stats (Some buffer);;;
                  NoSyncFile path flags stats buffer
              end
          | OtherAction _ => throw (ApiError EINVAL "Invalid FileMode object.")
          end
      | None => throw (ApiError_EISDIR path)
      end.

Definition readdirSync (path : string) : M (list string) :=
  inode <~ getInode path;
  if is_null inode then throw (ApiError_ENOENT path)
  else
    match as_DirInode inode with
    | Some (listing, _) => ret listing
    | None => throw (ApiError_ENOTDIR path)
    end.

Definition readdir (path : string) (cb : Callback (list string)) : M unit :=
  try_catch
    (listing <~ readdirSync path; cb None (Some listing))
    (λ e, cb (Some e) None).

Definition readFileSync (fname : string) (encoding : option string)
    (flag : FileFlag) : M Value :=
  fd <~ openSync fname flag 0x1a4;
  try_finally
    (let fdBuff := getBuffer fd in
     match encoding with
     | None => ret (VBuffer (copyingSlice fdBuff))
     | Some encoding => s <~ Buffer_toString fdBuff encoding; ret (VString s)
     end)
    (closeSync fd).

(** *** The operations that wait for the transport

    A request that is answered later leaves room for other calls:
    [meanwhile] stands for the calls made on the file system between the
    moment a request is sent and the moment its answer is handled.  What
    these calls return or throw goes to their own callers. *)

Section InFlight.

Variable meanwhile : M unit.

Definition in_flight : M unit :=
  λ st, ((meanwhile st).1, Ok tt).

(** Modelled from the spec: [xhr.getFileSizeAsync] (generic/xhr).  The
    request is sent; when it answers, the handler of the transport calls the
    continuation with the size, inside a [try] block whose [catch] calls the
    continuation again with EIO, or calls it with the error of a failed
    request. *)
Definition getFileSizeAsync (url : string) (cb : Thrown + Z → M unit) : M unit :=
  emit (EvHead url);;;
  in_flight;;;
  match fetchSize xhr url with
  | inr n =>
      try_catch
        (cb (inr n))
        (λ _, cb (inl (ApiError EIO
                         "XHR HEAD error: Could not read content-length.")))
  | inl e => cb (inl e)
  end.

(** Modelled from the spec: [xhr.asyncDownloadFile] (generic/xhr) for the
    type 'buffer'.  The request is sent; when it answers, the continuation
    is called with the bytes or with the error. *)
Definition asyncDownloadFile (url : string) (cb : Thrown + Buffer → M unit) : M unit :=
  emit (EvGet url);;;
  in_flight;;;
  cb (fetchBytes xhr url).

Definition _requestFileSizeAsync (path : string) (cb : Thrown + Z → M unit) : M unit :=
  λ this, getFileSizeAsync (getXhrPath this path) cb this.
Definition _requestFileAsync (p : string) (cb : Thrown + Buffer → M unit) : M unit :=
  λ this, asyncDownloadFile (getXhrPath this p) cb this.

Definition stat_while (path : string) (isLstat : bool) (cb : Callback loc) : M unit :=
  inode <~ getInode path;
  if is_null inode then cb (Some (ApiError_ENOENT path)) None
  else
    match as_FileInode inode with
    | Some stats =>
        sz <~ getSize stats;
        if sz <? 0 then
          _requestFileSizeAsync path (λ answer,
            match answer with
            | inl e => cb (Some e) None
            | inr size =>
                setSize stats size;;;
                snapshot <~ clone stats;
                cb None (Some snapshot)
            end)
        else
          snapshot <~ clone stats;
          cb None (Some snapshot)
    | None =>
        match as_DirInode inode with
        | Some (_, stats) => cb None (Some stats)
        | None => cb (Some (ApiError_FileError EINVAL path)) None
        end
    end.

Definition open_while (path : string) (flags : FileFlag) (mode : Z) (cb : Callback File)
  : M unit :=
  if isWriteable flags then cb (Some (ApiError EPERM path)) None
  else
    inode <~ getInode path;
    if is_null inode then cb (Some (ApiError_ENOENT path)) None
    else
      match as_FileInode inode with
      | Some stats =>
          match pathExistsAction flags with
          | THROW_EXCEPTION | TRUNCATE_FILE =>
              cb (Some (ApiError_EEXIST path)) None
          | NOP =>
              data <~ getFileData stats;
              match data with
              | Some contents =>
                  fd <~ NoSyncFile path flags stats contents;
                  cb None (Some fd)
              | None =>
                  _requestFileAsync path (λ answer,
                    match answer with
                    | inl err => cb (Some err) None
                    | inr buffer =>
                        setSize stats (buffer_length buffer);;;
                        setFileData stats (Some buffer);;;
                        fd <~ NoSyncFile path flags stats buffer;
                        cb None (Some fd)
                    end)
              end
          | OtherAction _ =>
              cb (Some (ApiError EINVAL "Invalid FileMode object.")) None
          end
      | None => cb (Some (ApiError_EISDIR path)) None
      end.

Definition readFile_while (fname : string) (encoding : option string) (flag : FileFlag)
    (cb : Callback Value) : M unit :=
  let oldCb := cb in
  open_while fname flag 0x1a4 (λ err fd,
    match err with
    | Some e => cb (Some e) None
    | None =>
        match fd with
        | None => throw TypeError
        | Some fd =>
            let cb : Callback Value := λ err arg,
              close fd (λ err2,
                let err := match err with
                           | None => err2
                           | Some _ => err
                           end in
                oldCb err arg) in
            let fdBuff := getBuffer fd in
            match encoding with
            | None => cb err (Some (VBuffer (copyingSlice fdBuff)))
            | Some encoding =>
                tryToString fdBuff encoding (λ e rv, cb e (VString <$> rv))
            end
        end
    end).

End InFlight.

(** [stat], [open] and [readFile] when the answer of the transport is
    handled before any other call is made. *)
Definition stat (path : string) (isLstat : bool) (cb : Callback loc) : M unit :=
  stat_while (ret tt) path isLstat cb.
Definition open (path : string) (flags : FileFlag) (mode : Z) (cb : Callback File)
  : M unit :=
  open_while (ret tt) path flags mode cb.
Definition readFile (fname : string) (encoding : option string) (flag : FileFlag)
    (cb : Callback Value) : M unit :=
  readFile_while (ret tt) fname encoding flag cb.

End Backend.

(** ** Vocabulary of the properties *)

(** A callback-taking operation [run], started in [st], does nothing
    observable by its callback but move to some state and invoke the
    callback, once and as its last step, with [err] and [arg]. *)
Definition calls_back {A} (run : Callback A → M unit) (st : State)
    (err : option Thrown) (arg : option A) : Prop :=
  ∃ st', ∀ cb, run cb st = cb err arg st'.

(** The events a run from [st] to [st'] has added to the trace. *)
Definition new_events (st st' : State) : list Event :=
  drop (length (trace st)) (trace st').

Definition is_callback (ev : Event) : bool :=
  match ev with EvCallback _ _ => true | _ => false end.
Definition is_close (ev : Event) : bool :=
  match ev with EvClose _ => true | _ => false end.
Definition is_fetch (ev : Event) : bool :=
  match ev with EvHead _ | EvGet _ => true | _ => false end.

Definition count (p : Event → bool) (evs : list Event) : nat :=
  length (filter (λ ev, p ev = true) evs).

(** What the first invocation of the caller's callback received. *)
Fixpoint delivered (evs : list Event) : option (option Thrown * option Value) :=
  match evs with
  | [] => None
  | EvCallback err arg :: _ => Some (err, arg)
  | _ :: rest => delivered rest
  end.

(** The caller's callback was invoked once between [st] and [st'], with an
    error or with a result and not with both. *)
Definition exactly_once (st st' : State) : Prop :=
  ∃ err arg,
    filter (λ ev, is_callback ev = true) (new_events st st') = [EvCallback err arg] ∧
    is_null err ≠ is_null arg.

(** What a blocking operation returned or threw, as the two arguments a
    callback would be given. *)
Definition as_callback_args {A} (r : Res A) : option Thrown * option A :=
  match r with
  | Ok a => (None, Some a)
  | Throw e => (Some e, None)
  end.

(** [open] and [openSync] reach the constructor of the handle with resident
    content whose length is not the recorded size. *)
Definition resident_mismatch (st : State) (path : string) (flags : FileFlag) : bool :=
  negb (isWriteable flags) &&
  match as_FileInode (_index st !! path), pathExistsAction flags with
  | Some stats, NOP =>
      match file_data (heap st stats) with
      | Some contents => negb (size (heap st stats) =? buffer_length contents)
      | None => false
      end
  | _, _ => false
  end.

(** *** Whole-file read, composed by hand

    The definitions the spec compares [readFile] and [readFileSync] with:
    open the file, read the entire buffer of the handle, close the handle,
    and give the caller the raw bytes, or their text when an encoding was
    asked for. *)

Section Composed.

Variable xhr : Xhr.
Variable toString : Buffer → string → Thrown + string.

Definition read_entire_buffer (fd : File) : Buffer := file_buffer fd.

Definition present (whole : Buffer) (encoding : option string) : Thrown + Value :=
  match encoding with
  | None => inr (VBuffer whole)
  | Some encoding =>
      match toString whole encoding with
      | inl e => inl e
      | inr text => inr (VString text)
      end
  end.

Definition open_read_close (fname : string) (encoding : option string)
    (flag : FileFlag) (cb : Callback Value) : M unit :=
  open xhr fname flag 0x1a4 (λ err fd,
    match err, fd with
    | Some e, _ => cb (Some e) None
    | None, None => throw TypeError
    | None, Some fd =>
        let whole := read_entire_buffer fd in
        close fd (λ err2,
          match present whole encoding, err2 with
          | inl e, _ => cb (Some e) None
          | inr _, Some e2 => cb (Some e2) None
          | inr data, None => cb None (Some data)
          end)
    end).

Definition open_read_close_sync (fname : string) (encoding : option string)
    (flag : FileFlag) : M Value :=
  fd <~ openSync xhr fname flag 0x1a4;
  let whole := read_entire_buffer fd in
  closeSync fd;;;
  match present whole encoding with
  | inl e => throw e
  | inr data => ret data
  end.

End Composed.

(** *** The invariant of a [Stats] record, and the operations as data *)

Definition stat_invariant (s : Stats) : Prop :=
  ∀ b, file_data s = Some b → size s = buffer_length b.

Definition index_invariant (st : State) : Prop :=
  ∀ path stats, _index st !! path = Some (FileInode stats) →
                stat_invariant (heap st stats).

(** A call of a public operation of the class, with its arguments; for a
    callback-taking operation, with what the callback does. *)
Inductive Operation :=
  | Call_empty
  | Call_preloadFile (path : string) (buffer : Buffer)
  | Call_stat (path : string) (isLstat : bool) (behaviour : Behaviour)
  | Call_statSync (path : string) (isLstat : bool)
  | Call_open (path : string) (flags : FileFlag) (mode : Z) (behaviour : Behaviour)
  | Call_openSync (path : string) (flags : FileFlag) (mode : Z)
  | Call_readdir (path : string) (behaviour : Behaviour)
  | Call_readdirSync (path : string)
  | Call_readFile (fname : string) (encoding : option string) (flag : FileFlag)
      (behaviour : Behaviour)
  | Call_readFileSync (fname : string) (encoding : option string) (flag : FileFlag).

(** The state an operation leaves, whether it returns or throws. *)
Definition run (xhr : Xhr) (toString : Buffer → string → Thrown + string)
    (op : Operation) (st : State) : State :=
  match op with
  | Call_empty => (empty st).1
  | Call_preloadFile path buffer => (preloadFile path buffer st).1
  | Call_stat path isLstat behaviour =>
      (stat xhr path isLstat (caller_cb VStats behaviour) st).1
  | Call_statSync path isLstat => (statSync xhr path isLstat st).1
  | Call_open path flags mode behaviour =>
      (open xhr path flags mode (caller_cb VFile behaviour) st).1
  | Call_openSync path flags mode => (openSync xhr path flags mode st).1
  | Call_readdir path behaviour =>
      (readdir path (caller_cb VListing behaviour) st).1
  | Call_readdirSync path => (readdirSync path st).1
  | Call_readFile fname encoding flag behaviour =>
      (readFile xhr toString fname encoding flag (caller_cb id behaviour) st).1
  | Call_readFileSync fname encoding flag =>
      (readFileSync xhr toString fname encoding flag st).1
  end.

(** [empty] on one record. *)
Definition without_content (s : Stats) : Stats := mkStats (size s) None.

(** ** A small world to run the operations in

    One directory, [/], with one file, [/a.txt], whose two bytes are served
    under the prefix [pre/]; every other locator fails. *)

Definition example_bytes : Buffer := [Byte.x68; Byte.x69].

Definition example_xhr : Xhr :=
  mkXhr
    (λ url, if decide (url = "pre/a.txt"%string) then inr 2
            else inl (ApiError EIO url))
    (λ url, if decide (url = "pre/a.txt"%string) then inr example_bytes
            else inl (ApiError EIO url)).

Definition example_toString (b : Buffer) (encoding : string) : Thrown + string :=
  if decide (encoding = "ascii"%string) then inr "hi"%string
  else inl (ApiError EINVAL encoding).

Definition example_index : gmap string Inode :=
  <["/a.txt"%string := FileInode 0%nat]>
    (<["/"%string := DirInode ["a.txt"%string] 1%nat]> ∅).

(** The state right after the index was built: the size of the file is
    unknown and its content is absent. *)
Definition example_state : State :=
  mkState example_index "pre/"
    (λ l, if decide (l = 1%nat) then mkStats 4096 None else mkStats (-1) None)
    2%nat [].

Definition flag_r : FileFlag := mkFileFlag false NOP.
Definition flag_w : FileFlag := mkFileFlag true TRUNCATE_FILE.

(** A callback that returns normally, and one that throws when it is handed
    a result. *)
Definition quiet : Behaviour := λ _ _, None.
Definition throws_on_result : Behaviour :=
  λ err _, match err with
           | None => Some (ApiError EIO "thrown by the callback")
           | Some _ => None
           end.

(** ** The constructor and sequences of calls *)

(** Lines 42-46 of the constructor: the prefix it stores.  [charAt] answers
    the empty string past the end, [None] here. *)
Definition charAt (s : string) (i : nat) : option ascii := String.get i s.

Definition constructor_prefixUrl (prefixUrl : string) : string :=
  if (0 <? String.length prefixUrl)%nat
     && negb (bool_decide (charAt prefixUrl (String.length prefixUrl - 1)
                           = Some "/"%char))
  then prefixUrl +:+ "/"
  else prefixUrl.

(** The file nodes of the index refer to [Stats] objects that exist. *)
Definition allocated (st : State) : Prop :=
  ∀ path l, _index st !! path = Some (FileInode l) → (l < next st)%nat.

(** Calls made one after the other. *)
Definition run_sequence (xhr : Xhr) (toString : Buffer → string → Thrown + string)
    (ops : list Operation) (st : State) : State :=
  foldl (λ st op, run xhr toString op st) st ops.

(** A transport that reports no size: the answer for a response without a
    usable length is negative. *)
Definition sizeless_xhr : Xhr :=
  mkXhr (λ _, inr (-1)) (λ _, inr example_bytes).

(** A transport that is out of reach. *)
Definition offline_xhr : Xhr :=
  mkXhr (λ url, inl (ApiError EIO url)) (λ url, inl (ApiError EIO url)).

(** ** Proof automation *)

Ltac unfold_store :=
  unfold clone, setSize, setFileData, getSize, getFileData, getInode, emit,
    set_heap, set_next, set_trace.

Ltac unfold_xhr :=
  unfold _requestFileSizeAsync, _requestFileSizeSync, _requestFileAsync,
    _requestFileSync, getFileSizeAsync, getFileSizeSync, asyncDownloadFile,
    syncDownloadFile, in_flight.

Ltac unfold_monad :=
  unfold try_catch, try_finally, bind, ret, throw.

Ltac unfold_ops :=
  unfold readFile, readFile_while, readFileSync, stat, stat_while, statSync,
    open, open_while, openSync, readdir, readdirSync, preloadFile,
    tryToString, NoSyncFile, Buffer_toString, caller_cb, close, closeSync,
    getBuffer, copyingSlice.

Ltac run_all := unfold_ops; unfold_xhr; unfold_store; unfold_monad; simpl.

Ltac trace_norm :=
  unfold new_events; simpl; rewrite <- ?app_assoc;
  rewrite ?drop_app_length, ?drop_all; simpl.

Ltac destruct_atoms :=
  repeat match goal with
  | |- context [isWriteable ?f] => destruct (isWriteable f) eqn:?; simpl
  | |- context [_index ?st !! ?p] =>
      destruct (_index st !! p) as [[| |]|] eqn:?; simpl
  | |- context [pathExistsAction ?f] => destruct (pathExistsAction f) eqn:?; simpl
  | |- context [file_data (heap ?st ?l)] =>
      is_var st; destruct (file_data (heap st l)) eqn:?; simpl
  | |- context [match ?answer with inl _ => _ | inr _ => _ end] =>
      destruct answer eqn:?; simpl
  | |- context [Z.ltb ?a ?b] => destruct (Z.ltb a b) eqn:?; simpl
  | |- context [<[?a := ?x]> ?f ?a] => rewrite (fn_lookup_insert f a x); simpl
  | |- context [Z.eqb ?a ?a] => rewrite (Z.eqb_refl a); simpl
  | |- context [Z.eqb ?a ?b] => destruct (Z.eqb a b) eqn:?; simpl
  | |- context [match ?enc with Some _ => _ | None => _ end] =>
      is_var enc; destruct enc; simpl
  end.

Ltac settle Hret :=
  destruct_atoms; rewrite ?Hret; simpl; trace_norm;
  try (eexists _, _; split; [reflexivity | done]).

Ltac heap_cases :=
  unfold insert, fn_insert in *; simpl in *;
  repeat match goal with
         | |- context [decide (?a = ?b)] => destruct (decide (a = b)); subst; simpl in *
         | H : context [decide (?a = ?b)] |- _ =>
             destruct (decide (a = b)); subst; simpl in *
         end.

Ltac destruct_behaviour :=
  repeat match goal with
         | |- context [match ?behaviour ?e ?a with Some _ => _ | None => _ end] =>
             destruct (behaviour e a); simpl
         end.

Ltac invariant_side :=
  destruct_atoms; destruct_behaviour; intros;
  heap_cases; simplify_eq;
  try solve [auto | left; auto | right; auto];
  try (exfalso;
       match goal with
       | Hinv : ∀ b, file_data ?s = Some b → _,
         Hlt : (size ?s <? 0) = true, Hd : file_data ?s = Some ?c |- _ =>
           pose proof (Hinv c Hd);
           assert (0 ≤ buffer_length c) by (unfold buffer_length; lia);
           apply Z.ltb_lt in Hlt; lia
       end).

Ltac invariant_case :=
  split; [intros ? ? | intros ?]; run_all; run_all; invariant_side.

Ltac trace_extension :=
  first
    [ exists (@nil Event); split;
      [symmetry; apply app_nil_r | unfold count; simpl; lia]
    | eexists; split;
      [rewrite <- ?app_assoc; reflexivity | unfold count; simpl; lia] ].

(** * Properties *)

(** ** The example of the spec, run

    [stat] of the fresh file asks the transport for the size only; [open]
    then downloads the two bytes; a later [stat] and a later [open] send
    nothing more. *)
Example example_session :
  let st1 := (statSync example_xhr "/a.txt" false example_state).1 in
  let st2 := (openSync example_xhr "/a.txt" flag_r 420 st1).1 in
  let st3 := (statSync example_xhr "/a.txt" false st2).1 in
  let st4 := (openSync example_xhr "/a.txt" flag_r 420 st3).1 in
  heap st1 0%nat = mkStats 2 None ∧
  heap st2 0%nat = mkStats 2 (Some example_bytes) ∧
  trace st4 = [EvHead "pre/a.txt"; EvGet "pre/a.txt"] ∧
  (readdirSync "/" st4).2 = Ok ["a.txt"%string] ∧
  (readdirSync "/a.txt" st4).2 = Throw (ApiError ENOTDIR "/a.txt").
Proof. vm_compute. repeat split. Qed.

(** ** Write intent *)

(** C1: with flags that indicate write intent, [openSync] throws EPERM and
    [open] hands EPERM to its callback, whatever the path and the
    exists-action policy and whatever the index holds for the path: the
    index is not consulted and the state is left as it was. *)
Theorem open_write_intent_EPERM (xhr : Xhr) (path : string) (flags : FileFlag)
    (mode : Z) (st : State) :
  isWriteable flags = true →
  openSync xhr path flags mode st = (st, Throw (ApiError EPERM path)) ∧
  ∀ cb, open xhr path flags mode cb st = cb (Some (ApiError EPERM path)) None st.
Proof.
  intros Hw. unfold openSync, open, open_while. rewrite Hw. split; [reflexivity|].
  intros cb. reflexivity.
Qed.

Lemma open_write_intent_EPERM_witness :
  (openSync example_xhr "/nowhere" flag_w 0 example_state).2
    = Throw (ApiError EPERM "/nowhere") ∧
  (openSync example_xhr "/" flag_w 0 example_state).2
    = Throw (ApiError EPERM "/") ∧
  new_events example_state
    (open example_xhr "/a.txt" flag_w 0 (caller_cb VFile quiet) example_state).1
    = [EvCallback (Some (ApiError EPERM "/a.txt")) None].
Proof.
  split; [|split].
  - rewrite (proj1 (open_write_intent_EPERM example_xhr "/nowhere" flag_w 0
                      example_state eq_refl)). reflexivity.
  - rewrite (proj1 (open_write_intent_EPERM example_xhr "/" flag_w 0
                      example_state eq_refl)). reflexivity.
  - rewrite (proj2 (open_write_intent_EPERM example_xhr "/a.txt" flag_w 0
                      example_state eq_refl)). reflexivity.
Defined.

(** ** The exists-action policy *)



(** ** What [stat] returns *)

(** On a file path, [statSync] hands out the [Stats] object of the inode. *)
Lemma statSync_file (xhr : Xhr) (path : string) (isLstat : bool) (st st' : State)
    (stats result : loc) :
  _index st !! path = Some (FileInode stats) →
  statSync xhr path isLstat st = (st', Ok result) →
  result = stats ∧ _index st' = _index st ∧ next st' = next st.
Proof.
  intros Hfile. unfold statSync. unfold_xhr. unfold_store. unfold_monad.
  rewrite Hfile. simpl.
  destruct (size (heap st stats) <? 0); simpl.
  - destruct (fetchSize xhr (getXhrPath st path)); simpl; intros [= <- <-]; auto.
  - intros [= <- <-]; auto.
Qed.

(** On a file path, [stat] hands its callback a new [Stats] object, made
    after the size was settled; it is not the object of the inode as long
    as that one was allocated before the call.  When the size had to be
    asked for, the invocation sits in the [try] block of the transport's
    handler. *)
Lemma stat_file_snapshot (xhr : Xhr) (path : string) (isLstat : bool) (st : State)
    (stats : loc) :
  _index st !! path = Some (FileInode stats) →
  (stats < next st)%nat →
  (∃ e, calls_back (stat xhr path isLstat) st (Some e) None) ∨
  (∃ st', ((∀ cb, stat xhr path isLstat cb st = cb None (Some (next st)) st') ∨
           (∀ cb, stat xhr path isLstat cb st =
                  try_catch (cb None (Some (next st)))
                    (λ _, cb (Some (ApiError EIO
                            "XHR HEAD error: Could not read content-length."))
                            None) st')) ∧
          next st ≠ stats ∧
          size (heap st' (next st)) = size (heap st' stats) ∧
          (∀ n, heap (setSize (next st) n st').1 stats = heap st' stats) ∧
          (∀ n, heap (setSize stats n st').1 (next st) = heap st' (next st))).
Proof.
  intros Hfile Hlt.
  assert (Hne : next st ≠ stats) by lia.
  unfold stat, stat_while, calls_back. unfold_xhr. unfold_store.
  unfold bind, ret, throw.
  rewrite Hfile. simpl.
  destruct (size (heap st stats) <? 0); simpl.
  - destruct (fetchSize xhr (getXhrPath st path)) as [e|n]; simpl.
    + left. exists e. eexists. intros cb. reflexivity.
    + right. eexists. split; [right; intros cb; reflexivity|]. simpl.
      rewrite !fn_lookup_insert. rewrite !fn_lookup_insert_ne by done.
      rewrite !fn_lookup_insert.
      split; [done|]. split; [done|].
      split; intros m; rewrite !fn_lookup_insert_ne by done;
        rewrite ?fn_lookup_insert; reflexivity.
  - right. eexists. split; [left; intros cb; reflexivity|]. simpl.
    rewrite !fn_lookup_insert. rewrite !fn_lookup_insert_ne by done.
    split; [done|]. split; [done|].
    split; intros m; rewrite !fn_lookup_insert_ne by done;
      rewrite ?fn_lookup_insert; reflexivity.
Qed.

(** C3, evaluated on [statSync]: for a path that resolves to a file node, the
    [Stats] object [statSync] returns is the canonical record of the index,
    not a copy of it, so that a write through the returned object is a write
    to the canonical record. *)
Theorem statSync_returns_canonical_record (xhr : Xhr) (path : string)
    (isLstat : bool) (st st' : State) (stats result : loc) :
  _index st !! path = Some (FileInode stats) →
  statSync xhr path isLstat st = (st', Ok result) →
  as_FileInode (_index st' !! path) = Some result ∧
  ∀ n, size (heap (setSize result n st').1 stats) = n.
Proof.
  intros Hfile Hrun.
  destruct (statSync_file _ _ _ _ _ _ _ Hfile Hrun) as (-> & Hidx & _).
  split.
  - rewrite Hidx, Hfile. reflexivity.
  - intros n. unfold setSize, set_heap. simpl. rewrite fn_lookup_insert. reflexivity.
Qed.

Lemma statSync_returns_canonical_record_witness :
  ∃ st', statSync example_xhr "/a.txt" false example_state = (st', Ok 0%nat) ∧
         size (heap st' 0%nat) = 2 ∧
         size (heap (setSize 0%nat 99 st').1 0%nat) = 99.
Proof.
  destruct (statSync example_xhr "/a.txt" false example_state) as [st' r] eqn:Hrun.
  assert (Hfile : _index example_state !! "/a.txt"%string = Some (FileInode 0%nat))
    by (vm_compute; reflexivity).
  assert (Hr : r = Ok 0%nat ∧ size (heap st' 0%nat) = 2).
  { vm_compute in Hrun. injection Hrun as <- <-. split; reflexivity. }
  destruct Hr as [-> Hsize].
  exists st'. split; [reflexivity|]. split; [exact Hsize|].
  exact (proj2 (statSync_returns_canonical_record example_xhr "/a.txt" false
                  example_state st' 0%nat 0%nat Hfile Hrun) 99).
Defined.

(** ** preloadFile *)

Lemma preloadFile_file (path : string) (buffer : Buffer) (st : State) (stats : loc) :
  _index st !! path = Some (FileInode stats) →
  ∃ st', preloadFile path buffer st = (st', Ok tt) ∧
         heap st' stats = mkStats (buffer_length buffer) (Some buffer) ∧
         (∀ l, l ≠ stats → heap st' l = heap st l) ∧
         _index st' = _index st.
Proof.
  intros Hfile. unfold preloadFile. unfold_store. unfold_monad.
  rewrite Hfile. simpl. eexists. split; [reflexivity|]. simpl.
  rewrite !fn_lookup_insert. split; [reflexivity|]. split; [|reflexivity].
  intros l Hl. rewrite !fn_lookup_insert_ne by done. reflexivity.
Qed.

Lemma preloadFile_directory (path : string) (buffer : Buffer) (st : State)
    (listing : list string) (stats : loc) :
  _index st !! path = Some (DirInode listing stats) →
  preloadFile path buffer st = (st, Throw (ApiError EISDIR path)).
Proof.
  intros Hdir. unfold preloadFile. unfold_store. unfold_monad.
  rewrite Hdir. reflexivity.
Qed.

(** C4, evaluated on a path that is absent from the index: [preloadFile]
    throws EISDIR, not ENOENT.  The test for [null] sits inside the branch
    guarded by [isFileInode], which [null] never enters. *)
Theorem preloadFile_absent_path_EISDIR (path : string) (buffer : Buffer)
    (st : State) :
  _index st !! path = None →
  preloadFile path buffer st = (st, Throw (ApiError EISDIR path)).
Proof.
  intros Habsent. unfold preloadFile. unfold_store. unfold_monad.
  rewrite Habsent. reflexivity.
Qed.

Lemma preloadFile_absent_path_EISDIR_witness :
  preloadFile "/missing.txt" example_bytes example_state
    = (example_state, Throw (ApiError EISDIR "/missing.txt")).
Proof.
  apply preloadFile_absent_path_EISDIR. vm_compute. reflexivity.
Defined.

(** ** How often the callback is invoked *)

(** C5, evaluated on [readdir] with a callback that throws: on a directory,
    [readdir] invokes the callback with the listing inside its [try] block,
    catches what the callback throws, and invokes the callback a second
    time, with the thrown value as the error. *)
Theorem readdir_throwing_callback_invoked_twice (path : string)
    (behaviour : Behaviour) (st : State) (listing : list string) (stats : loc)
    (e : Thrown) :
  _index st !! path = Some (DirInode listing stats) →
  behaviour None (Some (VListing listing)) = Some e →
  let st' := (readdir path (caller_cb VListing behaviour) st).1 in
  new_events st st' =
    [EvCallback None (Some (VListing listing)); EvCallback (Some e) None] ∧
  count is_callback (new_events st st') = 2%nat.
Proof.
  intros Hdir Hthrows st'. subst st'.
  assert (Hrun : new_events st (readdir path (caller_cb VListing behaviour) st).1
                 = [EvCallback None (Some (VListing listing));
                    EvCallback (Some e) None]).
  { run_all. rewrite Hdir. simpl. rewrite Hthrows. simpl.
    destruct (behaviour (Some e) None); trace_norm; reflexivity. }
  rewrite Hrun. split; reflexivity.
Qed.

Lemma readdir_throwing_callback_invoked_twice_witness :
  count is_callback
    (new_events example_state
       (readdir "/" (caller_cb VListing throws_on_result) example_state).1)
  = 2%nat.
Proof.
  refine (proj2 (readdir_throwing_callback_invoked_twice "/" throws_on_result
                   example_state ["a.txt"%string] 1%nat
                   (ApiError EIO "thrown by the callback") _ eq_refl)).
  vm_compute. reflexivity.
Defined.

(** [open] is [openSync] in continuation-passing style, but for what the
    constructor of the handle throws, which [open] throws as well. *)
Lemma open_openSync (xhr : Xhr) (path : string) (flags : FileFlag) (mode : Z)
    (cb : Callback File) (st : State) :
  open xhr path flags mode cb st =
    let '(st1, r) := openSync xhr path flags mode st in
    if resident_mismatch st path flags
    then (st1, Throw (Error "Invalid buffer"))
    else cb (as_callback_args r).1 (as_callback_args r).2 st1.
Proof.
  unfold resident_mismatch. run_all. destruct_atoms; reflexivity.
Qed.

Lemma resident_mismatch_throws (xhr : Xhr) (path : string) (flags : FileFlag)
    (mode : Z) (st : State) :
  resident_mismatch st path flags = true →
  (openSync xhr path flags mode st).2 = Throw (Error "Invalid buffer") ∧
  trace (openSync xhr path flags mode st).1 = trace st.
Proof.
  unfold resident_mismatch. run_all. destruct_atoms; try discriminate; auto.
Qed.

Lemma invariant_no_mismatch (st : State) (path : string) (flags : FileFlag) :
  index_invariant st → resident_mismatch st path flags = false.
Proof.
  intros Hinv. unfold resident_mismatch.
  destruct (isWriteable flags); [reflexivity|]. simpl.
  destruct (_index st !! path) as [[stats| |]|] eqn:Hfile; simpl; try reflexivity.
  destruct (pathExistsAction flags); try reflexivity.
  destruct (file_data (heap st stats)) as [contents|] eqn:Hdata; [|reflexivity].
  rewrite (Hinv path stats Hfile contents Hdata), Z.eqb_refl. reflexivity.
Qed.

Lemma open_of_openSync_Ok (xhr : Xhr) (path : string) (flags : FileFlag)
    (mode : Z) (st st1 : State) (fd : File) :
  openSync xhr path flags mode st = (st1, Ok fd) →
  ∀ cb, open xhr path flags mode cb st = cb None (Some fd) st1.
Proof.
  intros Hopen cb. rewrite open_openSync, Hopen.
  destruct (resident_mismatch st path flags) eqn:Hmis; [|reflexivity].
  pose proof (resident_mismatch_throws xhr path flags mode st Hmis) as [Hthrow _].
  rewrite Hopen in Hthrow. discriminate.
Qed.

(** All [openSync] adds to the trace is the request it may send. *)
Lemma openSync_trace (xhr : Xhr) (path : string) (flags : FileFlag) (mode : Z)
    (st : State) :
  let st1 := (openSync xhr path flags mode st).1 in
  trace st1 = trace st ∨ trace st1 = trace st ++ [EvGet (getXhrPath st path)].
Proof. run_all. destruct_atoms; auto. Qed.

Lemma readdir_readdirSync (path : string) (cb : Callback (list string)) (st : State) :
  readdir path cb st =
    match readdirSync path st with
    | (st1, Ok listing) =>
        try_catch (cb None (Some listing)) (λ e, cb (Some e) None) st1
    | (st1, Throw e) => cb (Some e) None st1
    end.
Proof. run_all. destruct_atoms; reflexivity. Qed.

Lemma readdirSync_state (path : string) (st : State) :
  (readdirSync path st).1 = st.
Proof. run_all. destruct_atoms; reflexivity. Qed.

(** [readFile] opens with a continuation of its own. *)
Lemma readFile_open (xhr : Xhr) (toString : Buffer → string → Thrown + string)
    (fname : string) (encoding : option string) (flag : FileFlag)
    (cb : Callback Value) :
  readFile xhr toString fname encoding flag cb =
  open xhr fname flag 420 (λ err fd,
    match err with
    | Some e => cb (Some e) None
    | None =>
        match fd with
        | None => throw TypeError
        | Some fd =>
            let wrapped : Callback Value := λ err arg,
              close fd (λ err2,
                let err := match err with
                           | None => err2
                           | Some _ => err
                           end in
                cb err arg) in
            match encoding with
            | None => wrapped err (Some (VBuffer (copyingSlice (getBuffer fd))))
            | Some encoding =>
                tryToString toString (getBuffer fd) encoding
                  (λ e rv, wrapped e (VString <$> rv))
            end
        end
    end).
Proof. reflexivity. Qed.

(** When the records of the file nodes have the size of their content, a
    callback that returns normally is invoked once by each of the four
    callback-taking operations, with an error or with a result. *)
Lemma callback_invoked_once_when_it_returns (xhr : Xhr)
    (toString : Buffer → string → Thrown + string) (behaviour : Behaviour)
    (st : State) :
  returns_normally behaviour →
  index_invariant st →
  (∀ path isLstat,
     exactly_once st (stat xhr path isLstat (caller_cb VStats behaviour) st).1) ∧
  (∀ path flags mode,
     exactly_once st (open xhr path flags mode (caller_cb VFile behaviour) st).1) ∧
  (∀ path,
     exactly_once st (readdir path (caller_cb VListing behaviour) st).1) ∧
  (∀ fname encoding flag,
     exactly_once st
       (readFile xhr toString fname encoding flag (caller_cb id behaviour) st).1).
Proof.
  intros Hret Hinv. unfold exactly_once. repeat split.
  - intros path isLstat. run_all. settle Hret.
  - intros path flags mode. rewrite open_openSync.
    rewrite (invariant_no_mismatch st path flags Hinv).
    pose proof (openSync_trace xhr path flags mode st) as Htrace.
    destruct (openSync xhr path flags mode st) as [st1 [fd|e]]; simpl in *;
      run_all; rewrite Hret; simpl; unfold new_events; simpl;
      destruct Htrace as [-> | ->]; trace_norm;
      (eexists _, _; split; [reflexivity | done]).
  - intros path. run_all. settle Hret.
  - intros fname encoding flag. rewrite readFile_open, open_openSync.
    rewrite (invariant_no_mismatch st fname flag Hinv).
    pose proof (openSync_trace xhr fname flag 420 st) as Htrace.
    destruct (openSync xhr fname flag 420 st) as [st1 [fd|e]]; simpl in *.
    + run_all. destruct_atoms; rewrite ?Hret; simpl;
        unfold new_events; simpl;
        destruct Htrace as [-> | ->]; trace_norm;
        (eexists _, _; split; [reflexivity | done]).
    + run_all. rewrite Hret. simpl. unfold new_events. simpl.
      destruct Htrace as [-> | ->]; trace_norm;
        (eexists _, _; split; [reflexivity | done]).
Qed.

(** ** The blocking and the callback-taking forms *)


(** C6: started in the same state and reading the same transport, the
    blocking form and the callback-taking form of an operation have the same
    outcome.  What the blocking form throws is what the callback receives as
    its error; and when the blocking form returns, the callback receives a
    [Stats] object of the same size ([stat]), the same handle, hence the
    same bytes ([open]), the same listing ([readdir]), the same buffer or
    text ([readFile]).  One error does not travel through the callback: what
    the constructor of the handle throws on resident content that has not
    the recorded size is thrown by [open] and [readFile] themselves, as it
    is by [openSync] and [readFileSync], and the callback is not invoked. *)
Theorem blocking_and_callback_forms_agree (xhr : Xhr)
    (toString : Buffer → string → Thrown + string) (behaviour : Behaviour)
    (st : State) :
  (∀ path isLstat,
     let '(ss, r) := statSync xhr path isLstat st in
     let sa := (stat xhr path isLstat (caller_cb VStats behaviour) st).1 in
     match r with
     | Throw e => delivered (new_events st sa) = Some (Some e, None)
     | Ok stats =>
         ∃ snapshot,
           delivered (new_events st sa) = Some (None, Some (VStats snapshot)) ∧
           size (heap sa snapshot) = size (heap ss stats)
     end) ∧
  (∀ path flags mode,
     let '(ss, r) := openSync xhr path flags mode st in
     let async := open xhr path flags mode (caller_cb VFile behaviour) st in
     match r with
     | Throw e =>
         if resident_mismatch st path flags
         then async.2 = Throw e ∧ delivered (new_events st async.1) = None
         else delivered (new_events st async.1) = Some (Some e, None)
     | Ok fd =>
         delivered (new_events st async.1) = Some (None, Some (VFile fd)) ∧
         heap async.1 = heap ss
     end) ∧
  (∀ path,
     let '(ss, r) := readdirSync path st in
     let sa := (readdir path (caller_cb VListing behaviour) st).1 in
     match r with
     | Throw e => delivered (new_events st sa) = Some (Some e, None)
     | Ok listing =>
         delivered (new_events st sa) = Some (None, Some (VListing listing))
     end) ∧
  (∀ fname encoding flag,
     let '(ss, r) := readFileSync xhr toString fname encoding flag st in
     let async := readFile xhr toString fname encoding flag
                    (caller_cb id behaviour) st in
     match r with
     | Throw e =>
         if resident_mismatch st fname flag
         then async.2 = Throw e ∧ delivered (new_events st async.1) = None
         else delivered (new_events st async.1) = Some (Some e, None)
     | Ok data =>
         delivered (new_events st async.1) = Some (None, Some data) ∧
         heap async.1 = heap ss
     end).
Proof.
  assert (Hdeliver : ∀ (s s1 : State) evs d,
            (trace s1 = trace s ∨ ∃ ev, trace s1 = trace s ++ [ev] ∧ is_callback ev = false) →
            delivered evs = d →
            ∀ s2, trace s2 = trace s1 ++ evs → delivered (new_events s s2) = d).
  { intros s s1 evs d Hs1 Hd s2 Hs2. unfold new_events. rewrite Hs2.
    destruct Hs1 as [-> | (ev & -> & Hev)].
    - rewrite drop_app_length. exact Hd.
    - rewrite <- app_assoc, drop_app_length. simpl.
      destruct ev; try discriminate; exact Hd. }
  assert (Hopen_trace : ∀ path flags mode,
            let s1 := (openSync xhr path flags mode st).1 in
            trace s1 = trace st ∨
            ∃ ev, trace s1 = trace st ++ [ev] ∧ is_callback ev = false).
  { intros path flags mode.
    destruct (openSync_trace xhr path flags mode st) as [Ht | Ht]; [left|right].
    - exact Ht.
    - eexists. split; [exact Ht|reflexivity]. }
  repeat split.
  - intros path isLstat. run_all.
    destruct_atoms; destruct_behaviour;
      trace_norm; try reflexivity;
      eexists; (split; [reflexivity|]); simpl;
      repeat (rewrite fn_lookup_insert; simpl); reflexivity.
  - intros path flags mode. rewrite open_openSync.
    pose proof (Hopen_trace path flags mode) as Htrace.
    pose proof (resident_mismatch_throws xhr path flags mode st) as Hmis.
    destruct (openSync xhr path flags mode st) as [ss [fd|e]]; simpl in *.
    + destruct (resident_mismatch st path flags);
        [destruct (Hmis eq_refl); discriminate|].
      split.
      * eapply Hdeliver; [exact Htrace| |].
        2: { run_all. destruct_behaviour; reflexivity. }
        reflexivity.
      * run_all. destruct_behaviour; reflexivity.
    + destruct (resident_mismatch st path flags).
      * destruct (Hmis eq_refl) as [[= ->] Ht]. simpl. split; [reflexivity|].
        unfold new_events. rewrite Ht, drop_all. reflexivity.
      * eapply Hdeliver; [exact Htrace| |].
        2: { run_all. destruct_behaviour; reflexivity. }
        reflexivity.
  - intros path. run_all.
    destruct_atoms; destruct_behaviour; trace_norm; reflexivity.
  - intros fname encoding flag. rewrite readFile_open, open_openSync.
    unfold readFileSync, bind at 1.
    pose proof (Hopen_trace fname flag 420) as Htrace.
    pose proof (resident_mismatch_throws xhr fname flag 420 st) as Hmis.
    destruct (openSync xhr fname flag 420 st) as [s1 [fd|e]]; simpl in *.
    + destruct (resident_mismatch st fname flag);
        [destruct (Hmis eq_refl); discriminate|].
      run_all.
      destruct_atoms; destruct_behaviour;
        try split; try reflexivity;
        (eapply Hdeliver; [exact Htrace|
                           |simpl; rewrite <- ?app_assoc; reflexivity]);
        reflexivity.
    + destruct (resident_mismatch st fname flag).
      * destruct (Hmis eq_refl) as [[= ->] Ht]. simpl. split; [reflexivity|].
        unfold new_events. rewrite Ht, drop_all. reflexivity.
      * eapply Hdeliver; [exact Htrace| |].
        2: { run_all. destruct_behaviour; reflexivity. }
        reflexivity.
Qed.

(** ** readFile and the composition of open, read and close *)

(** [readFileSync] is the composition, in every state; it closes the handle
    it obtained once, also when decoding throws. *)
Lemma readFileSync_as_composed (xhr : Xhr)
    (toString : Buffer → string → Thrown + string) (fname : string)
    (encoding : option string) (flag : FileFlag) (st : State) :
  readFileSync xhr toString fname encoding flag st
    = open_read_close_sync xhr toString fname encoding flag st ∧
  ∀ st1 fd, openSync xhr fname flag 420 st = (st1, Ok fd) →
    new_events st1 (readFileSync xhr toString fname encoding flag st).1
      = [EvClose fd].
Proof.
  split.
  - unfold readFileSync, open_read_close_sync, bind at 1 3.
    destruct (openSync xhr fname flag 420 st) as [st1 [fd|e]]; [|reflexivity].
    unfold present, read_entire_buffer. run_all.
    destruct_atoms; simplify_eq; reflexivity.
  - intros st1 fd Hopen. unfold readFileSync, bind at 1. rewrite Hopen.
    run_all. destruct_atoms; trace_norm; reflexivity.
Qed.

(** For a callback that returns normally, [readFile] is the composition, and
    it closes the handle it obtained once, before it calls back. *)
Lemma readFile_as_composed (xhr : Xhr)
    (toString : Buffer → string → Thrown + string) (fname : string)
    (encoding : option string) (flag : FileFlag) (behaviour : Behaviour)
    (st : State) :
  returns_normally behaviour →
  readFile xhr toString fname encoding flag (caller_cb id behaviour) st
    = open_read_close xhr toString fname encoding flag (caller_cb id behaviour) st ∧
  ∀ st1 fd, openSync xhr fname flag 420 st = (st1, Ok fd) →
    ∃ err arg,
      new_events st1
        (readFile xhr toString fname encoding flag (caller_cb id behaviour) st).1
      = [EvClose fd; EvCallback err arg].
Proof.
  intros Hret. split.
  - rewrite readFile_open. unfold open_read_close. rewrite !open_openSync.
    destruct (openSync xhr fname flag 420 st) as [st1 [fd|e]]; simpl;
      (destruct (resident_mismatch st fname flag); [reflexivity|]);
      [|reflexivity].
    unfold present, read_entire_buffer. run_all.
    destruct_atoms; simplify_eq; rewrite ?Hret; reflexivity.
  - intros st1 fd Hopen. rewrite readFile_open.
    rewrite (open_of_openSync_Ok _ _ _ _ _ _ _ Hopen). simpl.
    run_all. destruct_atoms; rewrite ?Hret; simpl; trace_norm; eauto.
Qed.

(** C7, evaluated on [readFile] with an encoding and a callback that throws
    when it is handed the text: the handle is closed twice and the callback
    is invoked twice.  [tryToString] invokes the wrapped callback inside its
    [try] block; the wrapped callback closes the handle and calls the
    caller; what the caller throws is caught by [tryToString], which invokes
    the wrapped callback again. *)
Theorem readFile_throwing_callback_closes_twice (xhr : Xhr)
    (toString : Buffer → string → Thrown + string) (fname encoding : string)
    (flag : FileFlag) (behaviour : Behaviour) (st st1 : State) (fd : File)
    (text : string) (e : Thrown) :
  openSync xhr fname flag 420 st = (st1, Ok fd) →
  toString (file_buffer fd) encoding = inr text →
  behaviour None (Some (VString text)) = Some e →
  let st' := (readFile xhr toString fname (Some encoding) flag
                (caller_cb id behaviour) st).1 in
  new_events st1 st' =
    [EvClose fd; EvCallback None (Some (VString text));
     EvClose fd; EvCallback (Some e) None] ∧
  count is_close (new_events st1 st') = 2%nat.
Proof.
  intros Hopen Htext Hthrows st'. subst st'.
  assert (Hrun : new_events st1
            (readFile xhr toString fname (Some encoding) flag
               (caller_cb id behaviour) st).1
          = [EvClose fd; EvCallback None (Some (VString text));
             EvClose fd; EvCallback (Some e) None]).
  { rewrite readFile_open. rewrite (open_of_openSync_Ok _ _ _ _ _ _ _ Hopen).
    simpl.
    run_all. rewrite Htext. simpl. rewrite Hthrows. simpl.
    destruct (behaviour (Some e) None); trace_norm; reflexivity. }
  rewrite Hrun. split; reflexivity.
Qed.

Lemma readFile_throwing_callback_closes_twice_witness :
  count is_close
    (new_events (openSync example_xhr "/a.txt" flag_r 420 example_state).1
       (readFile example_xhr example_toString "/a.txt" (Some "ascii"%string)
          flag_r (caller_cb id throws_on_result) example_state).1)
  = 2%nat.
Proof.
  destruct (openSync example_xhr "/a.txt" flag_r 420 example_state)
    as [st1 r] eqn:Hopen.
  assert (Hr : r = Ok (mkFile "/a.txt" flag_r 2%nat example_bytes)).
  { vm_compute in Hopen. injection Hopen as _ <-. reflexivity. }
  subst r.
  exact (proj2 (readFile_throwing_callback_closes_twice example_xhr
                  example_toString "/a.txt" "ascii" flag_r throws_on_result
                  example_state st1 _ "hi"
                  (ApiError EIO "thrown by the callback")
                  Hopen eq_refl eq_refl)).
Defined.

(** ** empty *)

Lemma forEach_clear (files : list loc) (st : State) :
  ∃ st', forEach files (λ file, setFileData file None) st = (st', Ok tt) ∧
         _index st' = _index st ∧ prefixUrl st' = prefixUrl st ∧
         next st' = next st ∧ trace st' = trace st ∧
         ∀ l, heap st' l =
              if bool_decide (l ∈ files) then without_content (heap st l)
              else heap st l.
Proof.
  revert st. induction files as [|file rest IH]; intros st.
  - exists st. simpl. unfold ret. repeat split. 
  - simpl. unfold bind. unfold setFileData at 1. simpl.
    destruct (IH (set_heap (<[file := mkStats (size (heap st file)) None]> (heap st)) st))
      as (st' & Hrun & Hidx & Hpre & Hnext & Htrace & Hheap).
    exists st'. rewrite Hrun. repeat split; try assumption.
    intros l. rewrite Hheap. simpl. unfold without_content.
    destruct (decide (file = l)) as [->|Hne].
    + rewrite fn_lookup_insert. simpl.
      rewrite (bool_decide_eq_true_2 (l ∈ l :: rest))
        by (apply elem_of_cons; auto).
      destruct (bool_decide (l ∈ rest)); reflexivity.
    + rewrite fn_lookup_insert_ne by done.
      destruct (bool_decide (l ∈ rest)) eqn:Hin.
      * apply bool_decide_eq_true_1 in Hin.
        rewrite (bool_decide_eq_true_2 (l ∈ file :: rest))
          by (apply elem_of_cons; auto).
        reflexivity.
      * apply bool_decide_eq_false_1 in Hin.
        rewrite (bool_decide_eq_false_2 (l ∈ file :: rest)); [reflexivity|].
        rewrite elem_of_cons. intros [->|Hrest]; [apply Hne; reflexivity|].
        exact (Hin Hrest).
Qed.

Lemma elem_of_file_inodes (idx : gmap string Inode) (l : loc) :
  l ∈ file_inodes idx ↔ ∃ path, idx !! path = Some (FileInode l).
Proof.
  unfold file_inodes. rewrite list_elem_of_omap. split.
  - intros ([path inode] & Hin & Hfile). apply elem_of_map_to_list in Hin.
    exists path. simpl in Hfile. destruct inode; simplify_eq. exact Hin.
  - intros [path Hpath]. exists (path, FileInode l). split; [|reflexivity].
    apply elem_of_map_to_list. exact Hpath.
Qed.

(** What [empty] does to the whole state. *)
Lemma empty_state (st : State) :
  ∃ st', empty st = (st', Ok tt) ∧
         _index st' = _index st ∧ prefixUrl st' = prefixUrl st ∧
         next st' = next st ∧ trace st' = trace st ∧
         ∀ l, heap st' l =
              if bool_decide (l ∈ file_inodes (_index st))
              then without_content (heap st l)
              else heap st l.
Proof. unfold empty, fileIterator. apply forEach_clear. Qed.

(** C10: [empty] sets [file_data] to [null] in the [Stats] of every file
    node of the index and changes nothing else: the index (its paths, the
    kind of each node, the listing of each directory) is the one before the
    call, the size in every [Stats] object is the one before the call, a
    [Stats] object that belongs to no file node is untouched, and neither a
    request nor a callback takes place. *)
Theorem empty_clears_content_only (st : State) :
  ∃ st', empty st = (st', Ok tt) ∧
    (∀ path stats, _index st !! path = Some (FileInode stats) →
                   file_data (heap st' stats) = None) ∧
    _index st' = _index st ∧
    (∀ l, size (heap st' l) = size (heap st l)) ∧
    (∀ l, (∀ path, _index st !! path ≠ Some (FileInode l)) →
          heap st' l = heap st l) ∧
    prefixUrl st' = prefixUrl st ∧ next st' = next st ∧ trace st' = trace st.
Proof.
  destruct (empty_state st) as (st' & Hrun & Hidx & Hpre & Hnext & Htrace & Hheap).
  exists st'. repeat split; try assumption.
  - intros path stats Hfile. rewrite Hheap.
    rewrite bool_decide_eq_true_2; [reflexivity|].
    apply elem_of_file_inodes. eauto.
  - intros l. rewrite Hheap. destruct (bool_decide _); reflexivity.
  - intros l Hnot. rewrite Hheap.
    rewrite bool_decide_eq_false_2; [reflexivity|].
    rewrite elem_of_file_inodes. intros [path Hpath]. exact (Hnot path Hpath).
Qed.

(** ** The invariant of a Stats record *)

(** Each operation, on each [Stats] object: a present content keeps having
    the length recorded in [size]; and a content [b] is left in the object
    only if [b] was there before or the size of the object is the length of
    [b]. *)
Lemma run_stat_record (xhr : Xhr)
    (toString : Buffer → string → Thrown + string) (op : Operation) (st : State)
    (l : loc) :
  (stat_invariant (heap st l) → stat_invariant (heap (run xhr toString op st) l)) ∧
  (∀ b, file_data (heap (run xhr toString op st) l) = Some b →
        file_data (heap st l) = Some b ∨
        size (heap (run xhr toString op st) l) = buffer_length b).
Proof.
  unfold stat_invariant.
  destruct op; unfold run.
  1: { destruct (empty_state st) as (st' & Hrun & _ & _ & _ & _ & Hheap).
       rewrite Hrun. simpl. rewrite Hheap.
       destruct (bool_decide _); unfold without_content; simpl.
       - split; intros; discriminate.
       - split; auto. }
  all: invariant_case.
Qed.

(** No operation changes the index. *)
Lemma run_index (xhr : Xhr) (toString : Buffer → string → Thrown + string)
    (op : Operation) (st : State) :
  _index (run xhr toString op st) = _index st.
Proof.
  destruct op; unfold run.
  1: { destruct (empty_state st) as (st' & Hrun & Hidx & _). rewrite Hrun. exact Hidx. }
  all: run_all; run_all; destruct_atoms; destruct_behaviour; reflexivity.
Qed.

(** ** Opening a file whose content is resident *)

(** Content that is resident and has the recorded size is handed out as it
    is, and no request is sent. *)
Lemma open_resident_content (xhr : Xhr) (path : string) (flags : FileFlag)
    (mode : Z) (st : State) (stats : loc) (contents : Buffer) :
  _index st !! path = Some (FileInode stats) →
  file_data (heap st stats) = Some contents →
  size (heap st stats) = buffer_length contents →
  isWriteable flags = false →
  pathExistsAction flags = NOP →
  ∃ st' fd,
    openSync xhr path flags mode st = (st', Ok fd) ∧
    (∀ cb, open xhr path flags mode cb st = cb None (Some fd) st') ∧
    file_buffer fd = contents ∧
    trace st' = trace st.
Proof.
  intros Hfile Hdata Hsize Hro Hnop.
  eexists _, _. split; [|split; [|split]].
  - run_all. rewrite Hro, Hfile. simpl. rewrite Hnop, Hdata. simpl.
    rewrite fn_lookup_insert. simpl. rewrite Hsize, Z.eqb_refl. reflexivity.
  - intros cb. run_all. rewrite Hro, Hfile. simpl. rewrite Hnop, Hdata. simpl.
    rewrite fn_lookup_insert. simpl. rewrite Hsize, Z.eqb_refl. reflexivity.
  - reflexivity.
  - reflexivity.
Qed.

(** A successful [openSync] of a file leaves the bytes of its handle as the
    content of the canonical record, with their length as its size. *)
Lemma openSync_leaves_content (xhr : Xhr) (path : string) (flags : FileFlag)
    (mode : Z) (st st1 : State) (stats : loc) (fd : File) :
  _index st !! path = Some (FileInode stats) →
  (stats < next st)%nat →
  openSync xhr path flags mode st = (st1, Ok fd) →
  _index st1 = _index st ∧ file_data (heap st1 stats) = Some (file_buffer fd) ∧
  size (heap st1 stats) = buffer_length (file_buffer fd).
Proof.
  intros Hfile Hlt. assert (next st ≠ stats) by lia.
  run_all. destruct (isWriteable flags); simpl; [intros [=]|].
  rewrite Hfile. simpl.
  destruct (pathExistsAction flags); simpl;
    [|intros [=]|intros [=]|intros [=]].
  destruct (file_data (heap st stats)) as [contents|] eqn:Hdata; simpl.
  - rewrite fn_lookup_insert. simpl.
    destruct (size (heap st stats) =? buffer_length contents) eqn:Hsize; simpl;
      [|intros [=]].
    apply Z.eqb_eq in Hsize.
    intros [= <- <-]. simpl. split; [reflexivity|].
    rewrite fn_lookup_insert_ne by done. split; assumption.
  - destruct (fetchBytes xhr (getXhrPath st path)) as [e|buffer]; simpl;
      [intros [=]|].
    repeat (rewrite fn_lookup_insert; simpl). rewrite Z.eqb_refl. simpl.
    intros [= <- <-]. simpl. split; [reflexivity|].
    rewrite fn_lookup_insert_ne by done. rewrite fn_lookup_insert.
    split; reflexivity.
Qed.



(** ** The invariant and an answer that is handled late *)

Lemma openSync_next (xhr : Xhr) (path : string) (flags : FileFlag) (mode : Z)
    (st : State) :
  (next st ≤ next (openSync xhr path flags mode st).1)%nat.
Proof. run_all. destruct_atoms; simpl; lia. Qed.

(** What [openSync] does for a file, without write intent and under NOP,
    whose content is absent. *)
Lemma openSync_fetches (xhr : Xhr) (path : string) (flags : FileFlag) (mode : Z)
    (s : State) (stats : loc) :
  _index s !! path = Some (FileInode stats) →
  file_data (heap s stats) = None →
  isWriteable flags = false →
  pathExistsAction flags = NOP →
  new_events s (openSync xhr path flags mode s).1 = [EvGet (getXhrPath s path)] ∧
  (openSync xhr path flags mode s).2 =
    match fetchBytes xhr (getXhrPath s path) with
    | inl e => Throw e
    | inr b => Ok (mkFile path flags (next s) b)
    end.
Proof.
  intros Hfile Hdata Hro Hnop. run_all. rewrite Hro, Hfile. simpl.
  rewrite Hnop, Hdata. simpl.
  destruct (fetchBytes xhr (getXhrPath s path)); simpl;
    rewrite ?fn_lookup_insert; simpl; rewrite ?fn_lookup_insert; simpl;
    rewrite ?Z.eqb_refl; simpl; trace_norm; auto.
Qed.

Lemma run_index_invariant (xhr : Xhr)
    (toString : Buffer → string → Thrown + string) (op : Operation) (st : State) :
  index_invariant st → index_invariant (run xhr toString op st).
Proof.
  intros Hinv path stats Hfile. rewrite run_index in Hfile.
  apply run_stat_record. exact (Hinv path stats Hfile).
Qed.

(** The answer to the size request of [stat], handled after a call made in
    between has left content in the record: the size of the answer is
    written over the size of the record, and the content stays. *)
Lemma stat_while_late_answer (xhr : Xhr) (between : M unit) (path : string)
    (isLstat : bool) (behaviour : Behaviour) (st : State) (stats : loc) (n : Z)
    (buffer : Buffer) :
  _index st !! path = Some (FileInode stats) →
  size (heap st stats) < 0 →
  fetchSize xhr (getXhrPath st path) = inr n →
  let asked := set_trace (trace st ++ [EvHead (getXhrPath st path)]) st in
  file_data (heap (between asked).1 stats) = Some buffer →
  (stats < next (between asked).1)%nat →
  let st' := (stat_while xhr between path isLstat (caller_cb VStats behaviour) st).1 in
  heap st' stats = mkStats n (Some buffer) ∧
  _index st' = _index (between asked).1.
Proof.
  intros Hfile Hneg Hfetch asked Hdata Hlt. apply Z.ltb_lt in Hneg.
  subst asked. revert Hdata Hlt.
  unfold stat_while, _requestFileSizeAsync, getFileSizeAsync, in_flight,
    caller_cb.
  unfold_store. unfold_monad. simpl.
  rewrite Hfile. simpl. rewrite Hneg. simpl. rewrite Hfetch. simpl.
  intros Hdata Hlt.
  destruct_behaviour; simpl;
    rewrite fn_lookup_insert_ne by lia; rewrite fn_lookup_insert, Hdata; auto.
Qed.

(** Resident content that has not the recorded size stops [openSync] in the
    constructor of the handle. *)
Lemma openSync_invalid_buffer (xhr : Xhr) (path : string) (flags : FileFlag)
    (mode : Z) (st : State) (stats : loc) (n : Z) (buffer : Buffer) :
  _index st !! path = Some (FileInode stats) →
  heap st stats = mkStats n (Some buffer) →
  n ≠ buffer_length buffer →
  isWriteable flags = false →
  pathExistsAction flags = NOP →
  (openSync xhr path flags mode st).2 = Throw (Error "Invalid buffer").
Proof.
  intros Hfile Hheap Hne Hro Hnop.
  apply resident_mismatch_throws. unfold resident_mismatch.
  rewrite Hro, Hfile, Hnop. simpl. rewrite Hheap. simpl.
  destruct (n =? buffer_length buffer) eqn:Heq; [|reflexivity].
  apply Z.eqb_eq in Heq. contradiction.
Qed.

(** C8, evaluated on a [stat] whose size request is answered after another
    call: the invariant of the [Stats] records is not preserved.  [stat]
    finds the size of a file unknown and asks the transport for it; before
    the answer is handled, a [preloadFile] of the same path, or an
    [openSync] that downloads the file, sets the content and its length,
    and the invariant holds; the handler of the answer then writes the size
    the transport reported into the record, which has content by now, and
    when that size is not the length of the content the invariant is
    broken: a later [openSync] of the path throws in the constructor of the
    handle. *)
Theorem late_stat_answer_breaks_stat_invariant (xhr : Xhr) (path : string)
    (isLstat : bool) (behaviour : Behaviour) (st : State) (stats : loc) (n : Z)
    (buffer : Buffer) (between : M unit) :
  _index st !! path = Some (FileInode stats) →
  (stats < next st)%nat →
  index_invariant st →
  size (heap st stats) < 0 →
  fetchSize xhr (getXhrPath st path) = inr n →
  n ≠ buffer_length buffer →
  between = preloadFile path buffer ∨
  (fetchBytes xhr (getXhrPath st path) = inr buffer ∧
   ∃ flags mode, isWriteable flags = false ∧ pathExistsAction flags = NOP ∧
                 between = (fd <~ openSync xhr path flags mode; ret tt)) →
  let asked := set_trace (trace st ++ [EvHead (getXhrPath st path)]) st in
  let st' := (stat_while xhr between path isLstat (caller_cb VStats behaviour) st).1 in
  index_invariant (between asked).1 ∧
  heap st' stats = mkStats n (Some buffer) ∧
  ¬ stat_invariant (heap st' stats) ∧
  ¬ index_invariant st' ∧
  ∀ flags mode, isWriteable flags = false → pathExistsAction flags = NOP →
    (openSync xhr path flags mode st').2 = Throw (Error "Invalid buffer").
Proof.
  intros Hfile Hlt Hinv Hneg Hfetch Hne Hbetween asked st'.
  assert (Hasked : index_invariant asked) by exact Hinv.
  assert (Hmid : index_invariant (between asked).1 ∧
                 file_data (heap (between asked).1 stats) = Some buffer ∧
                 (stats < next (between asked).1)%nat ∧
                 _index (between asked).1 = _index st).
  { destruct Hbetween as [->|(Hbytes & flags & mode & Hro & Hnop & ->)].
    - split.
      + exact (run_index_invariant xhr (λ _ _, inr ""%string)
                 (Call_preloadFile path buffer) asked Hasked).
      + destruct (preloadFile_file path buffer asked stats Hfile)
          as (s1 & Hrun & Hheap & _ & Hidx).
        rewrite Hrun. cbn [fst]. rewrite Hheap. split; [reflexivity|].
        split; [|exact Hidx].
        revert Hrun. unfold preloadFile. unfold_store. unfold_monad.
        simpl. rewrite Hfile. simpl. intros [= <-]. exact Hlt.
    - assert (Hnone : file_data (heap asked stats) = None).
      { destruct (file_data (heap asked stats)) as [c|] eqn:Hc; [|reflexivity].
        pose proof (Hasked path stats Hfile c Hc) as Hsize. simpl in Hsize.
        unfold buffer_length in Hsize. lia. }
      destruct (openSync_fetches xhr path flags mode asked stats Hfile Hnone
                  Hro Hnop) as [_ Hresult].
      change (getXhrPath asked path) with (getXhrPath st path) in Hresult.
      rewrite Hbytes in Hresult.
      assert (Hfst : (bind (openSync xhr path flags mode) (λ _ : File, ret tt)
                        asked).1
                     = (openSync xhr path flags mode asked).1).
      { unfold bind. destruct (openSync xhr path flags mode asked) as [s1 [fd|e]];
          reflexivity. }
      rewrite Hfst.
      destruct (openSync xhr path flags mode asked) as [s1 r] eqn:Hopen.
      cbn [fst snd] in *. subst r.
      destruct (openSync_leaves_content xhr path flags mode asked s1 stats _
                  Hfile Hlt Hopen) as (Hidx & Hdata & _).
      split_and!.
      + pose proof (run_index_invariant xhr (λ _ _, inr ""%string)
                      (Call_openSync path flags mode) asked Hasked) as Hrun.
        unfold run in Hrun. rewrite Hopen in Hrun. exact Hrun.
      + exact Hdata.
      + pose proof (openSync_next xhr path flags mode asked) as Hnext.
        rewrite Hopen in Hnext. cbn [fst] in Hnext. simpl in Hnext. lia.
      + exact Hidx. }
  destruct Hmid as (Hinv1 & Hdata & Hlt1 & Hidx1).
  destruct (stat_while_late_answer xhr between path isLstat behaviour st stats n
              buffer Hfile Hneg Hfetch Hdata Hlt1) as [Hheap Hidx].
  fold st' in Hheap, Hidx. fold asked in Hidx.
  assert (Hfile' : _index st' !! path = Some (FileInode stats))
    by (rewrite Hidx, Hidx1; exact Hfile).
  assert (Hbroken : ¬ stat_invariant (heap st' stats)).
  { intros Hinv'. apply Hne. rewrite Hheap in Hinv'.
    exact (Hinv' buffer eq_refl). }
  split_and!.
  - exact Hinv1.
  - exact Hheap.
  - exact Hbroken.
  - intros Hinv'. exact (Hbroken (Hinv' path stats Hfile')).
  - intros flags mode Hro Hnop.
    exact (openSync_invalid_buffer xhr path flags mode st' stats n buffer
             Hfile' Hheap Hne Hro Hnop).
Qed.

Lemma late_stat_answer_breaks_stat_invariant_witness :
  let st' := (stat_while example_xhr (preloadFile "/a.txt" [Byte.x41]) "/a.txt"
                false (caller_cb VStats quiet) example_state).1 in
  index_invariant example_state ∧
  heap st' 0%nat = mkStats 2 (Some [Byte.x41]) ∧
  ¬ index_invariant st' ∧
  (openSync example_xhr "/a.txt" flag_r 0 st').2 = Throw (Error "Invalid buffer").
Proof.
  assert (Hfile : _index example_state !! "/a.txt"%string = Some (FileInode 0%nat))
    by (vm_compute; reflexivity).
  assert (Hlt : (0 < next example_state)%nat) by (simpl; lia).
  assert (Hinv : index_invariant example_state).
  { intros path stats _ b Hb. simpl in Hb.
    destruct (decide (stats = 1%nat)); discriminate Hb. }
  assert (Hneg : size (heap example_state 0%nat) < 0) by (simpl; lia).
  assert (Hne : 2 ≠ buffer_length [Byte.x41]) by (vm_compute; discriminate).
  destruct (late_stat_answer_breaks_stat_invariant example_xhr "/a.txt" false
              quiet example_state 0%nat 2 [Byte.x41]
              (preloadFile "/a.txt" [Byte.x41])
              Hfile Hlt Hinv Hneg eq_refl Hne (or_introl eq_refl))
    as (_ & Hheap & _ & Hbroken & Hopen).
  split_and!.
  - exact Hinv.
  - exact Hheap.
  - exact Hbroken.
  - exact (Hopen flag_r 0 eq_refl eq_refl).
Defined.

(** X18: as long as no other call is made between a request and the handling
    of its answer, every operation preserves the invariant of the [Stats]
    records, that a present content has the length recorded in [size]: for
    each object of the store, and hence for the canonical records of the
    file nodes of the index.  [preloadFile] establishes it on the record of
    a file, whatever the record held; and an operation leaves a content [b]
    in an object only if [b] was already there or the size of the object is
    the length of [b], so that no operation sets the content without the
    size. *)
Theorem uninterrupted_operations_keep_stat_invariant (xhr : Xhr)
    (toString : Buffer → string → Thrown + string) (op : Operation) (st : State) :
  (∀ l, stat_invariant (heap st l) →
        stat_invariant (heap (run xhr toString op st) l)) ∧
  (index_invariant st → index_invariant (run xhr toString op st)) ∧
  (∀ l b, file_data (heap (run xhr toString op st) l) = Some b →
          file_data (heap st l) = Some b ∨
          size (heap (run xhr toString op st) l) = buffer_length b) ∧
  (∀ path buffer stats,
     op = Call_preloadFile path buffer →
     _index st !! path = Some (FileInode stats) →
     heap (run xhr toString op st) stats
     = mkStats (buffer_length buffer) (Some buffer) ∧
     stat_invariant (heap (run xhr toString op st) stats)).
Proof.
  split_and!.
  - intros l. apply run_stat_record.
  - apply run_index_invariant.
  - intros l. apply run_stat_record.
  - intros path buffer stats -> Hfile. unfold run.
    destruct (preloadFile_file path buffer st stats Hfile)
      as (st1 & Hrun & Hheap & _).
    rewrite Hrun. cbn [fst]. rewrite Hheap.
    split; [reflexivity|]. intros b [= <-]. reflexivity.
Qed.

Lemma uninterrupted_operations_keep_stat_invariant_witness :
  index_invariant
    (run example_xhr example_toString (Call_openSync "/a.txt" flag_r 0)
       example_state) ∧
  heap (run example_xhr example_toString (Call_preloadFile "/a.txt" [Byte.x41])
          example_state) 0%nat
  = mkStats 1 (Some [Byte.x41]).
Proof.
  split.
  - apply (proj1 (proj2 (uninterrupted_operations_keep_stat_invariant example_xhr
                           example_toString (Call_openSync "/a.txt" flag_r 0)
                           example_state))).
    intros path stats _ b Hb. simpl in Hb.
    destruct (decide (stats = 1%nat)); discriminate Hb.
  - refine (proj1 (proj2 (proj2 (proj2
              (uninterrupted_operations_keep_stat_invariant
                 example_xhr example_toString
                 (Call_preloadFile "/a.txt" [Byte.x41]) example_state)))
              "/a.txt"%string [Byte.x41] 0%nat eq_refl _)).
    vm_compute. reflexivity.
Defined.

(** * Further properties of the backend *)

(** ** The prefix stored by the constructor *)

Lemma string_length_snoc (s : string) (c : ascii) :
  String.length (s +:+ String c EmptyString) = S (String.length s).
Proof. induction s as [|a s IH]; simpl; [reflexivity|]. rewrite IH. reflexivity. Qed.

Lemma string_get_snoc (s : string) (c : ascii) :
  String.get (String.length s) (s +:+ String c EmptyString) = Some c.
Proof. induction s as [|a s IH]; simpl; [reflexivity|]. exact IH. Qed.

(** X1: the prefix the constructor stores is the empty string or ends in a
    separator; it is the given prefix, with a separator appended exactly
    when the given one is not empty and does not end in one; and handing the
    stored prefix to the constructor again stores the same prefix. *)
Theorem constructor_prefixUrl_normalised (prefixUrl : string) :
  let stored := constructor_prefixUrl prefixUrl in
  (stored = ""%string ∨
   charAt stored (String.length stored - 1) = Some "/"%char) ∧
  (stored = prefixUrl ∨ stored = prefixUrl +:+ "/") ∧
  (stored = prefixUrl +:+ "/" ↔
   prefixUrl ≠ ""%string ∧
   charAt prefixUrl (String.length prefixUrl - 1) ≠ Some "/"%char) ∧
  (stored = ""%string ↔ prefixUrl = ""%string) ∧
  constructor_prefixUrl stored = stored.
Proof.
  assert (Hends : ∀ s, charAt (s +:+ "/") (String.length (s +:+ "/") - 1)
                       = Some "/"%char).
  { intros s. unfold charAt. rewrite string_length_snoc. simpl.
    rewrite Nat.sub_0_r. apply string_get_snoc. }
  assert (Hne : ∀ s, s +:+ "/" ≠ ""%string).
  { intros [|a s]; simpl; discriminate. }
  assert (Hempty : ∀ s, (0 <? String.length s)%nat = false → s = ""%string).
  { intros [|a s]; [reflexivity|]. simpl. discriminate. }
  assert (Hfull : ∀ s, (0 <? String.length s)%nat = true → s ≠ ""%string).
  { intros [|a s]; simpl; [discriminate|]. intros _. discriminate. }
  assert (Hgrow : ∀ s, s ≠ s +:+ "/").
  { intros s Heq. apply (f_equal String.length) in Heq.
    rewrite string_length_snoc in Heq. lia. }
  cbv zeta. unfold constructor_prefixUrl.
  destruct (0 <? String.length prefixUrl)%nat eqn:Hlen; cbn [andb].
  - destruct (bool_decide (charAt prefixUrl (String.length prefixUrl - 1)
                           = Some "/"%char)) eqn:Hlast; cbn [negb].
    + split_and!.
      * right. exact (bool_decide_eq_true_1 _ Hlast).
      * left. reflexivity.
      * split; [intros Heq; exfalso; exact (Hgrow _ Heq)|].
        intros [_ Hnot]. exfalso. exact (Hnot (bool_decide_eq_true_1 _ Hlast)).
      * reflexivity.
      * rewrite Hlen, Hlast. reflexivity.
    + split_and!.
      * right. apply Hends.
      * right. reflexivity.
      * split; [intros _|reflexivity].
        split; [exact (Hfull _ Hlen) | exact (bool_decide_eq_false_1 _ Hlast)].
      * split; intros Heq; [exfalso; exact (Hne _ Heq)|].
        exfalso. exact (Hfull _ Hlen Heq).
      * rewrite (bool_decide_eq_true_2 _ (Hends prefixUrl)).
        rewrite andb_false_r. reflexivity.
  - rewrite (Hempty _ Hlen). split_and!; [left| left| |reflexivity|reflexivity];
      try reflexivity.
    split; [discriminate|]. intros [Hn _]. exfalso. apply Hn. reflexivity.
Qed.

(** ** What no operation does *)

Lemma run_trace (xhr : Xhr) (toString : Buffer → string → Thrown + string)
    (op : Operation) (st : State) :
  ∃ evs, trace (run xhr toString op st) = trace st ++ evs ∧
         (count is_fetch evs ≤ 1)%nat.
Proof.
  destruct op; unfold run.
  1: { destruct (empty_state st) as (st' & Hrun & _ & _ & _ & Htrace & _).
       rewrite Hrun. simpl. rewrite Htrace. trace_extension. }
  all: run_all; run_all; destruct_atoms; destruct_behaviour; trace_extension.
Qed.

Lemma run_next (xhr : Xhr) (toString : Buffer → string → Thrown + string)
    (op : Operation) (st : State) :
  (next st ≤ next (run xhr toString op st))%nat ∧
  prefixUrl (run xhr toString op st) = prefixUrl st.
Proof.
  destruct op; unfold run.
  1: { destruct (empty_state st) as (st' & Hrun & _ & Hpre & Hnext & _).
       rewrite Hrun. simpl. rewrite Hnext, Hpre. split; [lia|reflexivity]. }
  all: run_all; run_all; destruct_atoms; destruct_behaviour; simpl;
       (split; [lia|reflexivity]).
Qed.

(** An object that exists and belongs to no file node is left alone. *)
Lemma run_frame (xhr : Xhr) (toString : Buffer → string → Thrown + string)
    (op : Operation) (st : State) (l : loc) :
  (∀ path, _index st !! path ≠ Some (FileInode l)) →
  (l < next st)%nat →
  heap (run xhr toString op st) l = heap st l.
Proof.
  intros Hnot Hlt. destruct op; unfold run.
  1: { destruct (empty_state st) as (st' & Hrun & _ & _ & _ & _ & Hheap).
       rewrite Hrun. simpl. rewrite Hheap.
       rewrite bool_decide_eq_false_2; [reflexivity|].
       rewrite elem_of_file_inodes. intros [path Hpath]. exact (Hnot path Hpath). }
  all: run_all; run_all; destruct_atoms; destruct_behaviour; heap_cases;
       try reflexivity; try lia;
       exfalso; eapply Hnot; eassumption.
Qed.

(** X2: no operation changes the index or the prefix, forgets an event of
    the trace, or sends more than one request to the transport; the store
    only grows. *)
Theorem operations_never (xhr : Xhr)
    (toString : Buffer → string → Thrown + string) (op : Operation) (st : State) :
  let st' := run xhr toString op st in
  _index st' = _index st ∧
  prefixUrl st' = prefixUrl st ∧
  (next st ≤ next st')%nat ∧
  trace st' = trace st ++ new_events st st' ∧
  (count is_fetch (new_events st st') ≤ 1)%nat.
Proof.
  cbv zeta.
  destruct (run_trace xhr toString op st) as (evs & Htrace & Hcount).
  destruct (run_next xhr toString op st) as [Hnext Hpre].
  assert (Hnew : new_events st (run xhr toString op st) = evs).
  { unfold new_events. rewrite Htrace, drop_app_length. reflexivity. }
  rewrite Hnew. split_and!; try assumption. apply run_index.
Qed.

(** ** The Stats object of a handle *)

Lemma run_sequence_frame (xhr : Xhr)
    (toString : Buffer → string → Thrown + string) (ops : list Operation)
    (st : State) (l : loc) :
  (∀ path, _index st !! path ≠ Some (FileInode l)) →
  (l < next st)%nat →
  heap (run_sequence xhr toString ops st) l = heap st l.
Proof.
  revert st. induction ops as [|op ops IH]; intros st Hnot Hlt; [reflexivity|].
  change (heap (run_sequence xhr toString ops (run xhr toString op st)) l
          = heap st l).
  rewrite IH.
  - apply run_frame; assumption.
  - intros path. rewrite run_index. apply Hnot.
  - pose proof (run_next xhr toString op st) as [Hnext _]. lia.
Qed.

Lemma openSync_handle (xhr : Xhr) (path : string) (flags : FileFlag) (mode : Z)
    (st st1 : State) (fd : File) :
  openSync xhr path flags mode st = (st1, Ok fd) →
  file_stat fd = next st ∧ next st1 = S (next st) ∧ _index st1 = _index st ∧
  file_path fd = path ∧ file_flag fd = flags.
Proof.
  run_all. destruct_atoms; intros Hrun; simplify_eq; simpl; auto.
Qed.

(** X3: the [Stats] object a handle carries is its own.  When the file nodes
    of the index refer to objects that exist, no later call of the file
    system, and no sequence of calls, changes the [Stats] object of a handle
    that [openSync] returned. *)
Theorem handle_stats_is_stable (xhr : Xhr)
    (toString : Buffer → string → Thrown + string) (path : string)
    (flags : FileFlag) (mode : Z) (st st1 : State) (fd : File)
    (ops : list Operation) :
  allocated st →
  openSync xhr path flags mode st = (st1, Ok fd) →
  heap (run_sequence xhr toString ops st1) (file_stat fd) = heap st1 (file_stat fd).
Proof.
  intros Halloc Hopen.
  destruct (openSync_handle _ _ _ _ _ _ _ Hopen) as (Hstat & Hnext & Hidx & _).
  apply run_sequence_frame.
  - intros p Hp. rewrite Hidx in Hp. apply Halloc in Hp. lia.
  - lia.
Qed.

Lemma example_state_allocated : allocated example_state.
Proof.
  intros p l Hp. unfold example_state, example_index in Hp. simpl in Hp.
  destruct (decide (p = "/a.txt"%string)) as [->|Hne].
  - rewrite lookup_insert_eq in Hp. injection Hp as <-. simpl. lia.
  - rewrite lookup_insert_ne in Hp by done.
    destruct (decide (p = "/"%string)) as [->|Hne'].
    + rewrite lookup_insert_eq in Hp. discriminate.
    + rewrite lookup_insert_ne in Hp by done. rewrite lookup_empty in Hp.
      discriminate.
Qed.

Lemma handle_stats_is_stable_witness :
  let st1 := (openSync example_xhr "/a.txt" flag_r 0 example_state).1 in
  heap (run_sequence example_xhr example_toString
          [Call_empty; Call_preloadFile "/a.txt" []; Call_statSync "/a.txt" false]
          st1) 2%nat
  = heap st1 2%nat.
Proof.
  destruct (openSync example_xhr "/a.txt" flag_r 0 example_state)
    as [st1 r] eqn:Hopen.
  assert (Hr : r = Ok (mkFile "/a.txt" flag_r 2%nat example_bytes)).
  { vm_compute in Hopen. injection Hopen as _ <-. reflexivity. }
  subst r. simpl.
  exact (handle_stats_is_stable example_xhr example_toString "/a.txt" flag_r 0
           example_state st1 _
           [Call_empty; Call_preloadFile "/a.txt" []; Call_statSync "/a.txt" false]
           example_state_allocated Hopen).
Defined.

(** ** stat and the transport *)

(** X4: [statSync] and [stat] ask the transport only for a file whose size
    is still negative, and then send one size-only request, to the locator
    of the path; an absent path, a directory and a file of known size cost
    no request.  [stat] then invokes the callback.  It invokes it once,
    unless the size was asked for and answered and the callback throws on
    the [Stats] object: the handler of the transport then invokes the
    callback a second time, with EIO. *)
Theorem stat_requests (xhr : Xhr) (path : string) (isLstat : bool) (st : State) :
  let fetched :=
    match as_FileInode (_index st !! path) with
    | Some stats => size (heap st stats) <? 0
    | None => false
    end in
  let requests := if fetched then [EvHead (getXhrPath st path)] else [] in
  new_events st (statSync xhr path isLstat st).1 = requests ∧
  ∀ behaviour, ∃ err arg,
    new_events st (stat xhr path isLstat (caller_cb VStats behaviour) st).1
    = requests ++ EvCallback err arg ::
        (if fetched && negb (is_null arg) && negb (is_null (behaviour err arg))
         then [EvCallback
                 (Some (ApiError EIO
                          "XHR HEAD error: Could not read content-length."))
                 None]
         else []).
Proof.
  cbv zeta. split.
  - run_all. destruct_atoms; trace_norm; reflexivity.
  - intros behaviour. run_all.
    destruct (_index st !! path) as [[stats|listing stats|]|]; simpl.
    + destruct (size (heap st stats) <? 0); simpl.
      * destruct (fetchSize xhr (getXhrPath st path)) as [e|n]; simpl.
        -- exists (Some e), None. destruct_behaviour; trace_norm; reflexivity.
        -- exists None, (Some (VStats (next st))).
           destruct (behaviour None (Some (VStats (next st)))); simpl;
             destruct_behaviour; trace_norm; reflexivity.
      * exists None, (Some (VStats (next st))).
        destruct_behaviour; trace_norm; reflexivity.
    + exists None, (Some (VStats stats)).
      destruct_behaviour; trace_norm; reflexivity.
    + eexists _, _. destruct_behaviour; trace_norm; reflexivity.
    + eexists _, _. destruct_behaviour; trace_norm; reflexivity.
Qed.

(** X5: [openSync] and [open] send a request only for a file node, without
    write intent, under NOP, whose content is absent, and then one
    whole-file request to the locator of the path.  [open] then invokes the
    callback once, also when the callback throws; it does not invoke it at
    all when the content is resident and has not the recorded size: the
    constructor of the handle throws and [open] throws with it. *)
Theorem open_requests (xhr : Xhr) (path : string) (flags : FileFlag) (mode : Z)
    (st : State) :
  let requests :=
    match isWriteable flags, as_FileInode (_index st !! path),
          pathExistsAction flags with
    | false, Some stats, NOP =>
        if is_null (file_data (heap st stats))
        then [EvGet (getXhrPath st path)] else []
    | _, _, _ => []
    end in
  new_events st (openSync xhr path flags mode st).1 = requests ∧
  ∀ behaviour,
    let async := open xhr path flags mode (caller_cb VFile behaviour) st in
    if resident_mismatch st path flags
    then new_events st async.1 = [] ∧ async.2 = Throw (Error "Invalid buffer")
    else ∃ err arg, new_events st async.1 = requests ++ [EvCallback err arg].
Proof.
  cbv zeta. split.
  - run_all. destruct_atoms; trace_norm; reflexivity.
  - intros behaviour. unfold resident_mismatch. run_all.
    destruct_atoms; destruct_behaviour; trace_norm; eauto.
Qed.

(** X6: a failed call leaves the [Stats] objects that exist as they are.
    When [statSync] or [openSync] throws, whatever the reason, and when the
    first thing the callback of [stat] or [open] receives is an error, no
    object that existed before the call has changed; no object was created
    either, except by an [openSync] or [open] that fails in the constructor
    of the handle, after the clone was made. *)
Theorem failure_leaves_the_store (xhr : Xhr) (path : string) (st : State) :
  (∀ isLstat st' e,
     statSync xhr path isLstat st = (st', Throw e) →
     heap st' = heap st ∧ next st' = next st) ∧
  (∀ flags mode st' e,
     openSync xhr path flags mode st = (st', Throw e) →
     (∀ l, (l < next st)%nat → heap st' l = heap st l) ∧
     (resident_mismatch st path flags = false →
      heap st' = heap st ∧ next st' = next st)) ∧
  (∀ isLstat behaviour e arg,
     let st' := (stat xhr path isLstat (caller_cb VStats behaviour) st).1 in
     delivered (new_events st st') = Some (Some e, arg) →
     heap st' = heap st ∧ next st' = next st) ∧
  (∀ flags mode behaviour e arg,
     let st' := (open xhr path flags mode (caller_cb VFile behaviour) st).1 in
     delivered (new_events st st') = Some (Some e, arg) →
     heap st' = heap st ∧ next st' = next st) ∧
  (∀ flags mode behaviour e,
     let async := open xhr path flags mode (caller_cb VFile behaviour) st in
     async.2 = Throw e →
     delivered (new_events st async.1) = None →
     ∀ l, (l < next st)%nat → heap async.1 l = heap st l).
Proof.
  split_and!.
  - intros isLstat st' e. run_all.
    destruct_atoms; intros Hrun; simplify_eq; auto.
  - intros flags mode st' e. unfold resident_mismatch. run_all.
    destruct_atoms; intros Hrun; simplify_eq; simpl;
      (split; [|try discriminate; auto]);
      intros l Hl; try reflexivity;
      rewrite fn_lookup_insert_ne by lia; reflexivity.
  - intros isLstat behaviour e arg. cbv zeta. run_all.
    destruct_atoms; destruct_behaviour; trace_norm; intros Hd;
      simplify_eq; auto.
  - intros flags mode behaviour e arg. cbv zeta. run_all.
    destruct_atoms; destruct_behaviour; trace_norm; intros Hd;
      simplify_eq; auto.
  - intros flags mode behaviour e. cbv zeta. run_all.
    destruct_atoms; destruct_behaviour; trace_norm; intros Hr Hd;
      simplify_eq; intros l Hl; try reflexivity;
      rewrite fn_lookup_insert_ne by lia; reflexivity.
Qed.

Lemma failure_leaves_the_store_witness :
  (openSync offline_xhr "/a.txt" flag_r 0 example_state).2
    = Throw (ApiError EIO "pre/a.txt") ∧
  heap (openSync offline_xhr "/a.txt" flag_r 0 example_state).1
    = heap example_state.
Proof.
  destruct (openSync offline_xhr "/a.txt" flag_r 0 example_state)
    as [st' r] eqn:Hrun.
  assert (Hr : r = Throw (ApiError EIO "pre/a.txt")).
  { vm_compute in Hrun. injection Hrun as _ <-. reflexivity. }
  subst r. split; [reflexivity|]. simpl.
  refine (proj1 (proj2 (proj1 (proj2 (failure_leaves_the_store offline_xhr
                                        "/a.txt" example_state))
                          flag_r 0 st' _ Hrun) _)).
  vm_compute. reflexivity.
Defined.

(** X7: [statSync] remembers the size it was told only when it is not
    negative.  After a size-only request answered with [n], the canonical
    record has size [n] and its content is as before; a second [statSync]
    sends no request when [0 ≤ n], and asks the transport again when [n] is
    negative. *)
Theorem statSync_remembers_size (xhr : Xhr) (path : string) (isLstat : bool)
    (st : State) (stats : loc) (n : Z) :
  _index st !! path = Some (FileInode stats) →
  size (heap st stats) < 0 →
  fetchSize xhr (getXhrPath st path) = inr n →
  let st1 := (statSync xhr path isLstat st).1 in
  statSync xhr path isLstat st = (st1, Ok stats) ∧
  heap st1 stats = mkStats n (file_data (heap st stats)) ∧
  new_events st1 (statSync xhr path isLstat st1).1
    = (if n <? 0 then [EvHead (getXhrPath st path)] else []).
Proof.
  intros Hfile Hneg Hfetch. cbv zeta.
  assert (Hlt : (size (heap st stats) <? 0) = true) by (apply Z.ltb_lt; exact Hneg).
  assert (Hrun : statSync xhr path isLstat st
                 = (set_heap (<[stats := mkStats n (file_data (heap st stats))]>
                                (heap st))
                      (set_trace (trace st ++ [EvHead (getXhrPath st path)]) st),
                    Ok stats)).
  { run_all. rewrite Hfile. simpl. rewrite Hlt. simpl. rewrite Hfetch. reflexivity. }
  assert (Hsecond : ∀ s, _index s = _index st → prefixUrl s = prefixUrl st →
            new_events s (statSync xhr path isLstat s).1
            = if size (heap s stats) <? 0
              then [EvHead (getXhrPath st path)] else []).
  { intros s Hidx Hpre.
    assert (Hurl : getXhrPath s path = getXhrPath st path)
      by (unfold getXhrPath; rewrite Hpre; reflexivity).
    run_all. rewrite Hidx, Hfile. simpl.
    destruct (size (heap s stats) <? 0); simpl.
    - rewrite Hurl.
      destruct (fetchSize xhr (getXhrPath st path)); trace_norm; reflexivity.
    - trace_norm. reflexivity. }
  rewrite Hrun. cbn [fst]. split_and!.
  - reflexivity.
  - apply fn_lookup_insert.
  - rewrite Hsecond by reflexivity.
    unfold set_heap at 1. cbn [heap]. rewrite fn_lookup_insert. reflexivity.
Qed.

Lemma statSync_remembers_size_witness :
  let st1 := (statSync example_xhr "/a.txt" false example_state).1 in
  let st2 := (statSync sizeless_xhr "/a.txt" false example_state).1 in
  new_events st1 (statSync example_xhr "/a.txt" false st1).1 = [] ∧
  new_events st2 (statSync sizeless_xhr "/a.txt" false st2).1
    = [EvHead "pre/a.txt"].
Proof.
  assert (Hfile : _index example_state !! "/a.txt"%string = Some (FileInode 0%nat))
    by (vm_compute; reflexivity).
  assert (Hneg : size (heap example_state 0%nat) < 0) by (simpl; lia).
  split.
  - exact (proj2 (proj2 (statSync_remembers_size example_xhr "/a.txt" false
                           example_state 0%nat 2 Hfile Hneg eq_refl))).
  - exact (proj2 (proj2 (statSync_remembers_size sizeless_xhr "/a.txt" false
                           example_state 0%nat (-1) Hfile Hneg eq_refl))).
Defined.

(** X8: after a successful [openSync] of a file, [statSync] of the same path
    reports the number of bytes of the handle, whatever size was recorded
    before, and sends no request; the [Stats] object of the handle reports
    the same size.  The canonical record is supposed to exist and to satisfy
    the invariant of [Stats] records before the call. *)
Theorem stat_after_open_is_byte_length (xhr : Xhr) (path : string)
    (flags : FileFlag) (mode : Z) (isLstat : bool) (st st1 : State)
    (stats : loc) (fd : File) :
  _index st !! path = Some (FileInode stats) →
  (stats < next st)%nat →
  stat_invariant (heap st stats) →
  openSync xhr path flags mode st = (st1, Ok fd) →
  statSync xhr path isLstat st1 = (st1, Ok stats) ∧
  size (heap st1 stats) = buffer_length (file_buffer fd) ∧
  size (heap st1 (file_stat fd)) = buffer_length (file_buffer fd).
Proof.
  intros Hfile Hlt Hinv. assert (Hne : next st ≠ stats) by lia.
  assert (Hstat : ∀ s, _index s = _index st →
            0 ≤ size (heap s stats) →
            statSync xhr path isLstat s = (s, Ok stats)).
  { intros s Hidx Hsize. run_all. rewrite Hidx, Hfile. simpl.
    destruct (size (heap s stats) <? 0) eqn:Hltb; [|reflexivity].
    apply Z.ltb_lt in Hltb. lia. }
  assert (Hlen : ∀ b : Buffer, 0 ≤ buffer_length b)
    by (intros b; unfold buffer_length; lia).
  run_all. destruct (isWriteable flags); simpl; [intros [=]|].
  rewrite Hfile. simpl.
  destruct (pathExistsAction flags); simpl;
    [|intros [=]|intros [=]|intros [=]].
  destruct (file_data (heap st stats)) as [contents|] eqn:Hdata; simpl.
  - pose proof (Hinv contents Hdata) as Hsize.
    rewrite ?fn_lookup_insert, Hsize, Z.eqb_refl.
    intros [= <- <-]. cbn [heap file_stat file_buffer].
    split_and!.
    + apply Hstat; [reflexivity|]. cbn [heap].
      rewrite fn_lookup_insert_ne by done. rewrite Hsize. apply Hlen.
    + rewrite fn_lookup_insert_ne by done. exact Hsize.
    + rewrite fn_lookup_insert. reflexivity.
  - destruct (fetchBytes xhr (getXhrPath st path)) as [e|buffer]; simpl;
      [intros [=]|].
    rewrite ?fn_lookup_insert. simpl. rewrite ?fn_lookup_insert. simpl.
    rewrite ?Z.eqb_refl.
    intros [= <- <-]. cbn [heap file_stat file_buffer].
    split_and!.
    + apply Hstat; [reflexivity|]. cbn [heap].
      rewrite fn_lookup_insert_ne by done. rewrite !fn_lookup_insert.
      apply Hlen.
    + rewrite fn_lookup_insert_ne by done. rewrite !fn_lookup_insert.
      reflexivity.
    + rewrite !fn_lookup_insert. reflexivity.
Qed.

Lemma stat_after_open_is_byte_length_witness :
  let st1 := (openSync example_xhr "/a.txt" flag_r 0 example_state).1 in
  statSync example_xhr "/a.txt" false st1 = (st1, Ok 0%nat) ∧
  size (heap st1 0%nat) = 2.
Proof.
  destruct (openSync example_xhr "/a.txt" flag_r 0 example_state)
    as [st1 r] eqn:Hopen.
  assert (Hr : r = Ok (mkFile "/a.txt" flag_r 2%nat example_bytes)).
  { vm_compute in Hopen. injection Hopen as _ <-. reflexivity. }
  subst r. simpl.
  assert (Hfile : _index example_state !! "/a.txt"%string = Some (FileInode 0%nat))
    by (vm_compute; reflexivity).
  assert (Hlt : (0 < next example_state)%nat) by (simpl; lia).
  assert (Hinv : stat_invariant (heap example_state 0%nat))
    by (intros b Hb; discriminate Hb).
  destruct (stat_after_open_is_byte_length example_xhr "/a.txt" flag_r 0 false
              example_state st1 0%nat _ Hfile Hlt Hinv Hopen)
    as (Hstat & Hsize & _).
  split; [exact Hstat | exact Hsize].
Defined.

(** ** preloadFile and empty, followed by reads *)

(** X9: what [preloadFile] stores is what the reads give back, without the
    transport.  After [preloadFile(path, buffer)] on a file, [readFileSync]
    without encoding returns [buffer], [openSync] returns a handle on
    [buffer], and [statSync] reports its length; none of them sends a
    request. *)
Theorem preloadFile_then_read (xhr : Xhr)
    (toString : Buffer → string → Thrown + string) (path : string)
    (buffer : Buffer) (flags : FileFlag) (mode : Z) (isLstat : bool)
    (st : State) (stats : loc) :
  _index st !! path = Some (FileInode stats) →
  isWriteable flags = false →
  pathExistsAction flags = NOP →
  let st1 := (preloadFile path buffer st).1 in
  (∃ st2, readFileSync xhr toString path None flags st1 = (st2, Ok (VBuffer buffer)) ∧
          count is_fetch (new_events st1 st2) = 0%nat) ∧
  (∃ st2 fd, openSync xhr path flags mode st1 = (st2, Ok fd) ∧
             file_buffer fd = buffer ∧ trace st2 = trace st1) ∧
  statSync xhr path isLstat st1 = (st1, Ok stats) ∧
  size (heap st1 stats) = buffer_length buffer.
Proof.
  intros Hfile Hro Hnop.
  destruct (preloadFile_file path buffer st stats Hfile)
    as (st1 & Hrun & Hheap & _ & Hidx).
  rewrite Hrun. cbn [fst].
  assert (Hfile1 : _index st1 !! path = Some (FileInode stats))
    by (rewrite Hidx; exact Hfile).
  assert (Hdata : file_data (heap st1 stats) = Some buffer)
    by (rewrite Hheap; reflexivity).
  assert (Hsize : size (heap st1 stats) = buffer_length buffer)
    by (rewrite Hheap; reflexivity).
  destruct (open_resident_content xhr path flags 420 st1 stats buffer
              Hfile1 Hdata Hsize Hro Hnop) as (s2 & fd & Hopen & _ & Hbuf & Htrace).
  split_and!.
  - eexists. unfold readFileSync, bind at 1. rewrite Hopen.
    run_all. rewrite Hbuf. split; [reflexivity|].
    unfold new_events. simpl. rewrite Htrace, drop_app_length. reflexivity.
  - destruct (open_resident_content xhr path flags mode st1 stats buffer
                Hfile1 Hdata Hsize Hro Hnop) as (s3 & fd3 & Hopen3 & _ & Hbuf3 & Htrace3).
    exists s3, fd3. auto.
  - run_all. rewrite Hfile1. simpl. rewrite Hheap. simpl.
    destruct (buffer_length buffer <? 0) eqn:Hlt; [|reflexivity].
    apply Z.ltb_lt in Hlt. unfold buffer_length in Hlt. lia.
  - rewrite Hheap. reflexivity.
Qed.

Lemma preloadFile_then_read_witness :
  let st1 := (preloadFile "/a.txt" [Byte.x41] example_state).1 in
  ∃ st2, readFileSync offline_xhr example_toString "/a.txt" None flag_r st1
         = (st2, Ok (VBuffer [Byte.x41])).
Proof.
  assert (Hfile : _index example_state !! "/a.txt"%string = Some (FileInode 0%nat))
    by (vm_compute; reflexivity).
  destruct (preloadFile_then_read offline_xhr example_toString "/a.txt"
              [Byte.x41] flag_r 0 false example_state 0%nat Hfile eq_refl eq_refl)
    as ((st2 & Hread & _) & _).
  exists st2. exact Hread.
Defined.

(** X10: [empty] forces the next open to download again and keeps the known
    size.  After [empty], [openSync] of a file (without write intent, under
    NOP) sends one whole-file request to the locator of the path, whatever
    was resident before, and returns a handle on what the transport answers;
    the size of the canonical record is the one before [empty]. *)
Theorem empty_then_open_downloads (xhr : Xhr) (path : string) (flags : FileFlag)
    (mode : Z) (st : State) (stats : loc) :
  _index st !! path = Some (FileInode stats) →
  isWriteable flags = false →
  pathExistsAction flags = NOP →
  let st1 := (empty st).1 in
  new_events st1 (openSync xhr path flags mode st1).1
    = [EvGet (getXhrPath st path)] ∧
  (openSync xhr path flags mode st1).2 =
    match fetchBytes xhr (getXhrPath st path) with
    | inl e => Throw e
    | inr b => Ok (mkFile path flags (next st) b)
    end ∧
  size (heap st1 stats) = size (heap st stats).
Proof.
  intros Hfile Hro Hnop.
  destruct (empty_state st) as (st1 & Hrun & Hidx & Hpre & Hnext & _ & Hheap).
  rewrite Hrun. cbn [fst].
  assert (Hfile1 : _index st1 !! path = Some (FileInode stats))
    by (rewrite Hidx; exact Hfile).
  assert (Hin : bool_decide (stats ∈ file_inodes (_index st)) = true).
  { apply bool_decide_eq_true_2, elem_of_file_inodes. eauto. }
  assert (Hdata : file_data (heap st1 stats) = None)
    by (rewrite Hheap, Hin; reflexivity).
  assert (Hurl : getXhrPath st1 path = getXhrPath st path)
    by (unfold getXhrPath; rewrite Hpre; reflexivity).
  destruct (openSync_fetches xhr path flags mode st1 stats Hfile1 Hdata Hro Hnop)
    as [Hevents Hresult].
  rewrite Hevents, Hresult, Hurl, Hnext. split_and!; try reflexivity.
  rewrite Hheap, Hin. reflexivity.
Qed.

Lemma empty_then_open_downloads_witness :
  let st0 := (openSync example_xhr "/a.txt" flag_r 0 example_state).1 in
  let st1 := (empty st0).1 in
  new_events st1 (openSync example_xhr "/a.txt" flag_r 0 st1).1
    = [EvGet "pre/a.txt"].
Proof.
  cbv zeta.
  assert (Hfile : _index (openSync example_xhr "/a.txt" flag_r 0 example_state).1
                    !! "/a.txt"%string = Some (FileInode 0%nat))
    by (vm_compute; reflexivity).
  exact (proj1 (empty_then_open_downloads example_xhr "/a.txt" flag_r 0
                  _ 0%nat Hfile eq_refl eq_refl)).
Defined.

(** X11: [empty] twice is [empty] once: the second call changes no [Stats]
    object and nothing else. *)
Theorem empty_idempotent (st : State) :
  let st1 := (empty st).1 in
  let st2 := (empty st1).1 in
  (∀ l, heap st2 l = heap st1 l) ∧
  _index st2 = _index st1 ∧ prefixUrl st2 = prefixUrl st1 ∧
  next st2 = next st1 ∧ trace st2 = trace st1.
Proof.
  cbv zeta.
  destruct (empty_state st) as (st1 & Hrun & Hidx & _ & _ & _ & Hheap).
  rewrite Hrun. cbn [fst].
  destruct (empty_state st1) as (st2 & Hrun2 & Hidx2 & Hpre2 & Hnext2 & Htrace2 & Hheap2).
  rewrite Hrun2. cbn [fst]. split_and!; try assumption.
  intros l. rewrite Hheap2, Hidx, Hheap.
  destruct (bool_decide (l ∈ file_inodes (_index st))); reflexivity.
Qed.

(** ** readdir *)

(** X12: [readdirSync] answers from the index alone: the stored listing for
    a directory, ENOENT for an absent path, ENOTDIR for anything else; it
    leaves the state as it is.  [readdir] hands the same answer to its
    callback first, never sends a request and never touches the store,
    whatever the callback does. *)
Theorem readdir_reads_the_index_only (path : string) (st : State) :
  let answer : Res (list string) :=
    match _index st !! path with
    | None => Throw (ApiError ENOENT path)
    | Some (DirInode listing _) => Ok listing
    | Some _ => Throw (ApiError ENOTDIR path)
    end in
  readdirSync path st = (st, answer) ∧
  ∀ behaviour,
    let st' := (readdir path (caller_cb VListing behaviour) st).1 in
    delivered (new_events st st')
      = Some ((as_callback_args answer).1, VListing <$> (as_callback_args answer).2) ∧
    count is_fetch (new_events st st') = 0%nat ∧
    heap st' = heap st ∧ next st' = next st ∧ _index st' = _index st.
Proof.
  cbv zeta. split.
  - run_all. destruct_atoms; reflexivity.
  - intros behaviour. run_all.
    destruct_atoms; destruct_behaviour; trace_norm; auto.
Qed.

(** ** readFile *)

Lemma readFile_fails_as_open_aux (xhr : Xhr)
    (toString : Buffer → string → Thrown + string) (fname : string)
    (flag : FileFlag) (st st1 : State) :
  (∀ encoding e, openSync xhr fname flag 420 st = (st1, Throw e) →
        readFileSync xhr toString fname encoding flag st = (st1, Throw e) ∧
        ∀ cb, readFile xhr toString fname encoding flag cb st
              = if resident_mismatch st fname flag
                then (st1, Throw e) else cb (Some e) None st1) ∧
  (∀ fd, openSync xhr fname flag 420 st = (st1, Ok fd) →
         readFileSync xhr toString fname None flag st
         = (set_trace (trace st1 ++ [EvClose fd]) st1, Ok (VBuffer (file_buffer fd)))).
Proof.
  split.
  - intros encoding e Hopen. split.
    + unfold readFileSync, bind. rewrite Hopen. reflexivity.
    + intros cb. rewrite readFile_open, open_openSync.
      destruct (resident_mismatch st fname flag) eqn:Hmis.
      * destruct (resident_mismatch_throws xhr fname flag 420 st Hmis)
          as [Hthrow _].
        rewrite Hopen in Hthrow. cbn [snd] in Hthrow.
        injection Hthrow as ->. rewrite Hopen. reflexivity.
      * rewrite Hopen. reflexivity.
  - intros fd Hopen. unfold readFileSync, bind at 1. rewrite Hopen.
    run_all. reflexivity.
Qed.

(** X13: [readFileSync] and [readFile] fail as the open fails.  When
    [openSync] throws, [readFileSync] throws the same error from the same
    state: nothing is closed and nothing is decoded.  [readFile] hands that
    error to the callback (write intent, absent path, directory, policy,
    transport), except when it is the constructor of the handle that throws,
    on resident content that has not the recorded size: [readFile] then
    throws the error itself and does not invoke the callback.  When
    [openSync] returns a handle, [readFileSync] without encoding returns the
    bytes of the handle after one close. *)
Theorem readFile_fails_as_open (xhr : Xhr)
    (toString : Buffer → string → Thrown + string) (fname : string)
    (encoding : option string) (flag : FileFlag) (st st1 : State) :
  (∀ e, openSync xhr fname flag 420 st = (st1, Throw e) →
        readFileSync xhr toString fname encoding flag st = (st1, Throw e) ∧
        if resident_mismatch st fname flag
        then e = Error "Invalid buffer" ∧
             ∀ cb, readFile xhr toString fname encoding flag cb st
                   = (st1, Throw e)
        else ∀ cb, readFile xhr toString fname encoding flag cb st
                   = cb (Some e) None st1) ∧
  (∀ fd, openSync xhr fname flag 420 st = (st1, Ok fd) →
         readFileSync xhr toString fname None flag st
         = (set_trace (trace st1 ++ [EvClose fd]) st1, Ok (VBuffer (file_buffer fd)))).
Proof.
  destruct (readFile_fails_as_open_aux xhr toString fname flag st st1)
    as [Hfail Hok].
  split; [|exact Hok].
  intros e Hopen. destruct (Hfail encoding e Hopen) as [Hsync Hasync].
  split; [exact Hsync|].
  destruct (resident_mismatch st fname flag) eqn:Hmis; [|exact Hasync].
  split; [|exact Hasync].
  destruct (resident_mismatch_throws xhr fname flag 420 st Hmis) as [Hthrow _].
  rewrite Hopen in Hthrow. cbn [snd] in Hthrow. congruence.
Qed.

Lemma readFile_fails_as_open_witness :
  readFileSync example_xhr example_toString "/" (Some "ascii"%string) flag_r
    example_state
  = (example_state, Throw (ApiError EISDIR "/")) ∧
  readFileSync example_xhr example_toString "/a.txt" None flag_w example_state
  = (example_state, Throw (ApiError EPERM "/a.txt")).
Proof.
  split.
  - apply (proj1 (proj1 (readFile_fails_as_open example_xhr example_toString "/"
                           (Some "ascii"%string) flag_r example_state example_state)
                    (ApiError EISDIR "/") ltac:(vm_compute; reflexivity))).
  - apply (proj1 (proj1 (readFile_fails_as_open example_xhr example_toString
                           "/a.txt" None flag_w example_state example_state)
                    (ApiError EPERM "/a.txt") ltac:(vm_compute; reflexivity))).
Defined.

(** X14: an error of the decoder does not escape [tryToString]: it is handed
    to the callback, and the text is when decoding succeeds.  With a
    callback that returns normally, [tryToString] returns normally and has
    invoked the callback once. *)
Theorem tryToString_delivers (toString : Buffer → string → Thrown + string)
    (buff : Buffer) (encoding : string) (behaviour : Behaviour) (st : State) :
  let run := tryToString toString buff encoding (caller_cb VString behaviour) st in
  delivered (new_events st run.1) =
    Some match toString buff encoding with
         | inl e => (Some e, None)
         | inr text => (None, Some (VString text))
         end ∧
  (∀ e, run.2 = Throw e →
        ∃ err arg, behaviour err arg = Some e ∧
                   EvCallback err arg ∈ new_events st run.1) ∧
  (returns_normally behaviour →
   run.2 = Ok tt ∧ count is_callback (new_events st run.1) = 1%nat).
Proof.
  cbv zeta. split_and!.
  - run_all. destruct_atoms; destruct_behaviour; trace_norm; reflexivity.
  - intros e. run_all.
    destruct (toString buff encoding) as [e0|text]; simpl.
    + destruct (behaviour (Some e0) None) as [x|] eqn:Hb; simpl; [|discriminate].
      intros [= ->]. exists (Some e0), None. split; [exact Hb|].
      trace_norm. apply list_elem_of_here.
    + destruct (behaviour None (Some (VString text))) as [x|] eqn:Hb; simpl;
        [|discriminate].
      destruct (behaviour (Some x) None) as [y|] eqn:Hb2; simpl; [|discriminate].
      intros [= ->]. exists (Some x), None. split; [exact Hb2|].
      trace_norm. apply list_elem_of_further, list_elem_of_here.
  - intros Hret. run_all.
    destruct (toString buff encoding); simpl; rewrite Hret; simpl;
      trace_norm; (split; reflexivity).
Qed.

Lemma tryToString_delivers_witness :
  (tryToString example_toString example_bytes "latin1"
     (caller_cb VString quiet) example_state).2 = Ok tt ∧
  new_events example_state
    (tryToString example_toString example_bytes "latin1"
       (caller_cb VString quiet) example_state).1
  = [EvCallback (Some (ApiError EINVAL "latin1")) None].
Proof.
  split.
  - apply (proj2 (proj2 (tryToString_delivers example_toString example_bytes
                           "latin1" quiet example_state))).
    intros err arg. reflexivity.
  - vm_compute. reflexivity.
Defined.

(** X15: the bytes [readFileSync] returns are the ones the transport
    served, and they are served once.  For a file whose content is absent,
    a first [readFileSync] without encoding sends one request and returns
    the answer of the transport; a second one returns the same bytes and
    sends no request. *)
Theorem readFileSync_downloads_once (xhr : Xhr)
    (toString : Buffer → string → Thrown + string) (path : string)
    (flags : FileFlag) (st : State) (stats : loc) (b : Buffer) :
  _index st !! path = Some (FileInode stats) →
  (stats < next st)%nat →
  file_data (heap st stats) = None →
  isWriteable flags = false →
  pathExistsAction flags = NOP →
  fetchBytes xhr (getXhrPath st path) = inr b →
  ∃ st1 st2,
    readFileSync xhr toString path None flags st = (st1, Ok (VBuffer b)) ∧
    count is_fetch (new_events st st1) = 1%nat ∧
    readFileSync xhr toString path None flags st1 = (st2, Ok (VBuffer b)) ∧
    count is_fetch (new_events st1 st2) = 0%nat.
Proof.
  intros Hfile Hlt Hdata Hro Hnop Hfetch.
  destruct (openSync xhr path flags 420 st) as [s1 r1] eqn:Hopen1.
  destruct (openSync_fetches xhr path flags 420 st stats Hfile Hdata Hro Hnop)
    as [Hevents Hresult].
  rewrite Hopen1 in Hevents, Hresult. simpl in Hevents, Hresult.
  rewrite Hfetch in Hresult. subst r1.
  destruct (openSync_leaves_content _ _ _ _ _ _ _ _ Hfile Hlt Hopen1)
    as (Hidx1 & Hdata1 & Hsize1). simpl in Hdata1, Hsize1.
  set (st1 := set_trace (trace s1 ++ [EvClose (mkFile path flags (next st) b)]) s1).
  assert (Hfile1 : _index st1 !! path = Some (FileInode stats))
    by (simpl; rewrite Hidx1; exact Hfile).
  destruct (open_resident_content xhr path flags 420 st1 stats b Hfile1 Hdata1
              Hsize1 Hro Hnop) as (s2 & fd2 & Hopen2 & _ & Hbuf2 & Htrace2).
  exists st1, (set_trace (trace s2 ++ [EvClose fd2]) s2). split_and!.
  - exact (proj2 (readFile_fails_as_open_aux xhr toString path flags st s1) _ Hopen1).
  - unfold new_events in *. subst st1. simpl.
    assert (Htr : trace s1 = trace st ++ [EvGet (getXhrPath st path)]).
    { pose proof (openSync_trace xhr path flags 420 st) as Ht.
      rewrite Hopen1 in Ht. simpl in Ht. destruct Ht as [Ht|Ht]; [|exact Ht].
      rewrite Ht, drop_all in Hevents. discriminate. }
    rewrite Htr, <- app_assoc, drop_app_length. reflexivity.
  - rewrite <- Hbuf2.
    exact (proj2 (readFile_fails_as_open_aux xhr toString path flags st1 s2) _ Hopen2).
  - unfold new_events. simpl. rewrite Htrace2, drop_app_length. reflexivity.
Qed.

Lemma readFileSync_downloads_once_witness :
  ∃ st1 st2,
    readFileSync example_xhr example_toString "/a.txt" None flag_r example_state
      = (st1, Ok (VBuffer example_bytes)) ∧
    readFileSync example_xhr example_toString "/a.txt" None flag_r st1
      = (st2, Ok (VBuffer example_bytes)) ∧
    count is_fetch (new_events st1 st2) = 0%nat.
Proof.
  assert (Hfile : _index example_state !! "/a.txt"%string = Some (FileInode 0%nat))
    by (vm_compute; reflexivity).
  assert (Hlt : (0 < next example_state)%nat) by (simpl; lia).
  destruct (readFileSync_downloads_once example_xhr example_toString "/a.txt"
              flag_r example_state 0%nat example_bytes Hfile Hlt eq_refl eq_refl
              eq_refl eq_refl)
    as (st1 & st2 & H1 & _ & H2 & H3).
  exists st1, st2. auto.
Defined.

(** ** The locator of a path *)

Lemma string_app_assoc (a b c : string) : (a +:+ b) +:+ c = a +:+ b +:+ c.
Proof.
  induction a as [|x a IH]; [reflexivity|].
  change (String x ((a +:+ b) +:+ c) = String x (a +:+ b +:+ c)).
  rewrite IH. reflexivity.
Qed.

Lemma strip_without_separator (name : string) :
  charAt name 0 ≠ Some "/"%char →
  match name with
  | String "/"%char rest => rest
  | _ => name
  end = name.
Proof.
  destruct name as [|c rest]; [reflexivity|]. unfold charAt. simpl. intros Hc.
  destruct c as [[] [] [] [] [] [] [] []]; try reflexivity.
  exfalso. apply Hc. reflexivity.
Qed.

(** X16: with the prefix the constructor stores, the locator of a path is
    the given prefix and the path joined by one separator, whether or not
    the given prefix ends in a separator and whether or not the path starts
    with one; with an empty prefix it is the path without its leading
    separator.  One separator is stripped from the path, not more. *)
Theorem locator_joins_prefix_and_path (st : State) (raw name : string) :
  prefixUrl st = constructor_prefixUrl raw →
  charAt name 0 ≠ Some "/"%char →
  getXhrPath st (String "/" name) = getXhrPath st name ∧
  getXhrPath st name =
    (if bool_decide (raw = ""%string) then name
     else if bool_decide (charAt raw (String.length raw - 1) = Some "/"%char)
          then raw +:+ name
          else raw +:+ "/" +:+ name) ∧
  getXhrPath st (String "/" (String "/" name)) = prefixUrl st +:+ String "/" name.
Proof.
  intros Hprefix Hname.
  assert (Hplain : getXhrPath st name = prefixUrl st +:+ name).
  { unfold getXhrPath. rewrite (strip_without_separator name Hname). reflexivity. }
  split_and!.
  - rewrite Hplain. reflexivity.
  - rewrite Hplain, Hprefix. unfold constructor_prefixUrl.
    destruct raw as [|c rest]; [reflexivity|].
    rewrite (bool_decide_eq_false_2 (String c rest = ""%string)) by discriminate.
    cbn [String.length Nat.ltb Nat.leb andb].
    destruct (bool_decide (charAt (String c rest) (S (String.length rest) - 1)
                           = Some "/"%char)); cbn [negb].
    + reflexivity.
    + apply string_app_assoc.
  - reflexivity.
Qed.

Lemma locator_joins_prefix_and_path_witness :
  getXhrPath example_state "/a.txt" = "pre/a.txt"%string ∧
  getXhrPath example_state "a.txt" = "pre/a.txt"%string.
Proof.
  assert (Hprefix : prefixUrl example_state = constructor_prefixUrl "pre")
    by reflexivity.
  assert (Hname : charAt "a.txt" 0 ≠ Some "/"%char) by discriminate.
  destruct (locator_joins_prefix_and_path example_state "pre" "a.txt"
              Hprefix Hname) as (Hsame & Hplain & _).
  split; [rewrite Hsame|]; exact Hplain.
Defined.

(** ** The Stats object [stat] hands to its callback *)

(** X17: for a file, the [Stats] object [stat] hands to its callback is a
    new object with the size of the canonical record, and no later call of
    the file system changes it.  The file nodes of the index are supposed to
    refer to objects that exist. *)
Theorem stat_snapshot_is_stable (xhr : Xhr)
    (toString : Buffer → string → Thrown + string) (path : string)
    (isLstat : bool) (behaviour : Behaviour) (st : State) (stats snapshot : loc)
    (ops : list Operation) :
  allocated st →
  _index st !! path = Some (FileInode stats) →
  let st' := (stat xhr path isLstat (caller_cb VStats behaviour) st).1 in
  delivered (new_events st st') = Some (None, Some (VStats snapshot)) →
  snapshot ≠ stats ∧
  size (heap st' snapshot) = size (heap st' stats) ∧
  heap (run_sequence xhr toString ops st') snapshot = heap st' snapshot.
Proof.
  intros Halloc Hfile. cbv zeta.
  pose proof (Halloc path stats Hfile) as Hlt.
  assert (Hne : next st ≠ stats) by lia.
  assert (Hshape :
    delivered (new_events st (stat xhr path isLstat (caller_cb VStats behaviour) st).1)
      = Some (None, Some (VStats snapshot)) →
    snapshot = next st ∧
    next (stat xhr path isLstat (caller_cb VStats behaviour) st).1 = S (next st) ∧
    _index (stat xhr path isLstat (caller_cb VStats behaviour) st).1 = _index st ∧
    size (heap (stat xhr path isLstat (caller_cb VStats behaviour) st).1 (next st))
      = size (heap (stat xhr path isLstat (caller_cb VStats behaviour) st).1 stats)).
  { run_all. rewrite Hfile. simpl.
    destruct (size (heap st stats) <? 0); simpl.
    - destruct (fetchSize xhr (getXhrPath st path)); simpl;
        destruct_behaviour; trace_norm; intros Hd; simplify_eq;
        (split_and!; try reflexivity);
        repeat (rewrite fn_lookup_insert || rewrite fn_lookup_insert_ne by done);
        reflexivity.
    - destruct_behaviour; trace_norm; intros Hd; simplify_eq;
        (split_and!; try reflexivity);
        repeat (rewrite fn_lookup_insert || rewrite fn_lookup_insert_ne by done);
        reflexivity. }
  intros Hd. destruct (Hshape Hd) as (-> & Hnext & Hidx & Hsize).
  split_and!; [exact Hne | exact Hsize |].
  apply run_sequence_frame.
  - intros p Hp. rewrite Hidx in Hp. apply Halloc in Hp. lia.
  - lia.
Qed.

Lemma stat_snapshot_is_stable_witness :
  let st' := (stat example_xhr "/a.txt" false (caller_cb VStats quiet)
                example_state).1 in
  size (heap st' 2%nat) = 2 ∧
  heap (run_sequence example_xhr example_toString
          [Call_preloadFile "/a.txt" []; Call_openSync "/a.txt" flag_r 0] st')
       2%nat
  = heap st' 2%nat.
Proof.
  cbv zeta.
  assert (Hfile : _index example_state !! "/a.txt"%string = Some (FileInode 0%nat))
    by (vm_compute; reflexivity).
  destruct (stat_snapshot_is_stable example_xhr example_toString "/a.txt" false
              quiet example_state 0%nat 2%nat
              [Call_preloadFile "/a.txt" []; Call_openSync "/a.txt" flag_r 0]
              example_state_allocated Hfile ltac:(vm_compute; reflexivity))
    as (_ & Hsize & Hstable).
  split; [|exact Hstable].
  rewrite Hsize. vm_compute. reflexivity.
Defined.
